(** * URI Templates ([uri.py]): a shallow embedding and its properties

    The module under study is Python 2 code: it uses [dict.iteritems],
    indexes the list returned by [dict.items()], and calls [urllib.quote].
    The embedding therefore follows the Python 2 (CPython 2.7) behaviour of
    the built-ins the module calls:

    - [str] is a byte string, modelled as [string];
    - a caller's value is a [str] or a [list] of [str] (only the latter has
      an [__iter__] attribute in Python 2);
    - the caller's mapping is only read through [get], so it is a [gmap];
    - the table of declared variables built by [parse_expansion] is a
      [dict] that the operators enumerate ([keys()], [items()]), so its
      enumeration order matters and the CPython 2.7 hash table is modelled
      slot by slot;
    - exceptions are values of an error monad. *)

From Stdlib Require Import ZArith Ascii String Lia.
From stdpp Require Import numbers strings list gmap.

Local Open Scope Z_scope.

(** ** Python values and exceptions *)

(** A caller-supplied value: [Scalar] is a [str], [Sequence] a list of [str]. *)
Inductive Value : Type :=
  | Scalar (s : string)
  | Sequence (l : list string).

(** The exception classes that the module can let escape. *)
Inductive exn : Type :=
  | TemplateSyntaxError (msg : string)
  | ValueError
  | AssertionError
  | TypeError
  | IndexError.

(** Outcome of a call.  [Diverge] stands for a run that exhausted the probe
    budget of the hash-table model; CPython would keep probing. *)
Inductive result (A : Type) : Type :=
  | Ok (a : A)
  | Raise (e : exn)
  | Diverge.
Arguments Ok {A} a.
Arguments Raise {A} e.
Arguments Diverge {A}.

Definition bind {A B} (r : result A) (k : A -> result B) : result B :=
  match r with
  | Ok a => k a
  | Raise e => Raise e
  | Diverge => Diverge
  end.

Notation "'let!' x ':=' r 'in' k" := (bind r (fun x => k))
  (at level 10, x pattern, r at level 100, k at level 200, only parsing).

(** ** [str] methods *)

Definition ord (c : ascii) : Z := Z.of_N (N_of_ascii c).

(** [c in s] for a one-character [c]. *)
Fixpoint contains (c : ascii) (s : string) : bool :=
  match s with
  | EmptyString => false
  | String c' s' => Ascii.eqb c' c || contains c s'
  end.

(** [s.split(sep)] for a one-character [sep]: one more part than there are
    separators. *)
Fixpoint split (sep : ascii) (s : string) : list string :=
  match s with
  | EmptyString => [EmptyString]
  | String c s' =>
      if Ascii.eqb c sep then EmptyString :: split sep s'
      else match split sep s' with
           | part :: parts => String c part :: parts
           | [] => [String c EmptyString]
           end
  end.

(** [sep.join(parts)]. *)
Definition join (sep : string) (parts : list string) : string :=
  String.concat sep parts.

(** [s[1:]]. *)
Definition slice_from_1 (s : string) : string :=
  match s with
  | EmptyString => EmptyString
  | String _ s' => s'
  end.

(** The characters of a [str], as iterating over it yields them. *)
Fixpoint chars (s : string) : list string :=
  match s with
  | EmptyString => []
  | String c s' => String c EmptyString :: chars s'
  end.

Definition hexdigit (upper : bool) (n : Z) : ascii :=
  if n <? 10 then ascii_of_N (Z.to_N (48 + n))
  else ascii_of_N (Z.to_N ((if upper then 55 else 87) + n)).

(** Two hexadecimal digits, as [%02X] (upper) or [%02x] format them. *)
Definition hex2 (upper : bool) (c : ascii) : string :=
  String (hexdigit upper (ord c / 16))
    (String (hexdigit upper (ord c mod 16)) EmptyString).

Definition squote : ascii := ascii_of_nat 39.
Definition dquote : ascii := ascii_of_nat 34.
Definition backslash : ascii := ascii_of_nat 92.

Fixpoint repr_body (quote : ascii) (s : string) : string :=
  match s with
  | EmptyString => EmptyString
  | String c s' =>
      (if Ascii.eqb c quote || Ascii.eqb c backslash
       then String backslash (String c EmptyString)
       else if Ascii.eqb c (ascii_of_nat 9) then String backslash "t"
       else if Ascii.eqb c (ascii_of_nat 10) then String backslash "n"
       else if Ascii.eqb c (ascii_of_nat 13) then String backslash "r"
       else if (ord c <? 32) || (127 <=? ord c)
       then String backslash (String "x" (hex2 false c))
       else String c EmptyString) +:+ repr_body quote s'
  end.

(** [repr(s)] of a [str], which is what [%r] formats. *)
Definition repr (s : string) : string :=
  let quote :=
    if contains squote s && negb (contains dquote s) then dquote else squote in
  String quote (repr_body quote s +:+ String quote EmptyString).

(** [str(v)], which is what [%s] formats. *)
Definition str (v : Value) : string :=
  match v with
  | Scalar s => s
  | Sequence l => "[" +:+ join ", " (map repr l) +:+ "]"
  end.

(** [hasattr(v, "__iter__")]. *)
Definition has_iter (v : Value) : bool :=
  match v with
  | Scalar _ => false
  | Sequence _ => true
  end.

(** [len(v)]. *)
Definition len (v : Value) : nat :=
  match v with
  | Scalar s => String.length s
  | Sequence l => length l
  end.

(** ** [urllib.quote] (Python 2 standard library) *)

Definition always_safe : string :=
  "ABCDEFGHIJKLMNOPQRSTUVWXYZabcdefghijklmnopqrstuvwxyz0123456789_.-".

(** One entry of [urllib]'s safe map: the character itself when it is in
    [always_safe] or in [safe], else [%XX]. *)
Definition quoter (safe : string) (c : ascii) : string :=
  if contains c always_safe || contains c safe then String c EmptyString
  else String "%" (hex2 true c).

Fixpoint quote_with (safe : string) (s : string) : string :=
  match s with
  | EmptyString => EmptyString
  | String c s' => quoter safe c +:+ quote_with safe s'
  end.

(** [urllib.quote(s)]: the parameter [safe] has its default, ['/']. *)
Definition quote (s : string) : string := quote_with "/" s.

(** ** The CPython 2.7 [dict]

    [variables] in [parse_expansion] is a [dict] with [str] keys.  Its
    [keys()] and [items()] list the hash table slot by slot, so the model
    keeps the table of [dictobject.c]: open addressing, the perturbed probe
    sequence, and the resize at two thirds of the slots.  The module never
    deletes a key, hence there are no dummy slots and [ma_fill] always
    equals [ma_used]. *)

(** A C [long] of 64 bits, kept as its unsigned representative. *)
Definition wrap (x : Z) : Z := x mod 2 ^ 64.

Fixpoint string_hash_loop (x : Z) (s : string) : Z :=
  match s with
  | EmptyString => x
  | String c s' => string_hash_loop (wrap (Z.lxor (1000003 * x) (ord c))) s'
  end.

(** [string_hash] of [stringobject.c], with hash randomisation off (the
    default of Python 2): [-1] is reserved for errors and becomes [-2]. *)
Definition string_hash (s : string) : Z :=
  match s with
  | EmptyString => 0
  | String c _ =>
      let x := string_hash_loop (Z.shiftl (ord c) 7) s in
      let x := wrap (Z.lxor x (Z.of_nat (String.length s))) in
      if x =? 2 ^ 64 - 1 then 2 ^ 64 - 2 else x
  end.

Record PyDictEntry : Type := {
  me_hash : Z;
  me_key : string;
  me_value : option string  (* a [str], or Python's [None] *)
}.

(** [ma_table] maps a slot index to its entry; an unmapped index is a slot
    whose key is [NULL]. *)
Record PyDict : Type := {
  ma_used : Z;
  ma_mask : Z;
  ma_table : gmap Z PyDictEntry
}.

Definition PyDict_MINSIZE : Z := 8.
Definition PERTURB_SHIFT : Z := 5.

(** [{}]. *)
Definition PyDict_New : PyDict :=
  {| ma_used := 0; ma_mask := PyDict_MINSIZE - 1; ma_table := ∅ |}.

(** The number of probes after which the model gives up: the perturbation
    has died out after 13 shifts of 5 bits, and from then on the recurrence
    [i = 5 * i + 1] visits every slot within [ma_mask + 1] steps. *)
Definition probe_budget (mask : Z) : nat := Z.to_nat (mask + 1) + 13.

(** The loop of [lookdict_string].  The index [i] is a [size_t] in C; only
    [i & mask] is ever read, and the size of a table divides [2 ^ 64], so
    the wrap-around of [i] cannot be observed and [i] is left unbounded.
    C compares the stored hash before the keys; the hash of a [str] is a
    function of its characters, so comparing the keys decides the same. *)
Fixpoint lookdict_loop (n : nat) (table : gmap Z PyDictEntry) (mask : Z)
    (key : string) (i perturb : Z) : option Z :=
  match n with
  | O => None
  | S n' =>
      let i := Z.shiftl i 2 + i + perturb + 1 in
      let slot := Z.land i mask in
      match table !! slot with
      | None => Some slot
      | Some ep =>
          if String.eqb (me_key ep) key then Some slot
          else lookdict_loop n' table mask key i (Z.shiftr perturb PERTURB_SHIFT)
      end
  end.

(** [lookdict_string]: the slot that holds [key], or else the first free
    slot of its probe sequence. *)
Definition lookdict (d : PyDict) (key : string) (hash : Z) : option Z :=
  let i := Z.land hash (ma_mask d) in
  match ma_table d !! i with
  | None => Some i
  | Some ep =>
      if String.eqb (me_key ep) key then Some i
      else lookdict_loop (probe_budget (ma_mask d)) (ma_table d) (ma_mask d)
             key i hash
  end.

(** [insertdict]: overwrite the value of a key already there, or fill the
    free slot. *)
Definition insertdict (d : PyDict) (key : string) (hash : Z)
    (value : option string) : option PyDict :=
  match lookdict d key hash with
  | None => None
  | Some slot =>
      match ma_table d !! slot with
      | Some ep =>
          Some {| ma_used := ma_used d; ma_mask := ma_mask d;
                  ma_table := <[slot := {| me_hash := me_hash ep;
                                           me_key := me_key ep;
                                           me_value := value |}]> (ma_table d) |}
      | None =>
          Some {| ma_used := ma_used d + 1; ma_mask := ma_mask d;
                  ma_table := <[slot := {| me_hash := hash;
                                           me_key := key;
                                           me_value := value |}]> (ma_table d) |}
      end
  end.

(** The entries of the table in slot order. *)
Definition dict_entries (d : PyDict) : list PyDictEntry :=
  omap (fun slot => ma_table d !! slot) (seqZ 0 (ma_mask d + 1)).

(** The loop of [insertdict_clean]: the first free slot of the sequence. *)
Fixpoint insertdict_clean_loop (n : nat) (table : gmap Z PyDictEntry)
    (mask : Z) (i perturb : Z) : option Z :=
  match n with
  | O => None
  | S n' =>
      let i := Z.shiftl i 2 + i + perturb + 1 in
      let slot := Z.land i mask in
      match table !! slot with
      | None => Some slot
      | Some _ =>
          insertdict_clean_loop n' table mask i (Z.shiftr perturb PERTURB_SHIFT)
      end
  end.

Definition insertdict_clean (mask : Z) (table : gmap Z PyDictEntry)
    (ep : PyDictEntry) : option (gmap Z PyDictEntry) :=
  let i := Z.land (me_hash ep) mask in
  let slot :=
    match table !! i with
    | None => Some i
    | Some _ =>
        insertdict_clean_loop (probe_budget mask) table mask i (me_hash ep)
    end in
  match slot with
  | Some slot => Some (<[slot := ep]> table)
  | None => None
  end.

(** [for (newsize = PyDict_MINSIZE; newsize <= minused; newsize <<= 1);]
    The loop doubles [newsize], so [n] rounds take it beyond any [minused]
    below [2 ^ n]. *)
Fixpoint dictresize_newsize (n : nat) (newsize minused : Z) : Z :=
  match n with
  | O => newsize
  | S n' =>
      if newsize <=? minused
      then dictresize_newsize n' (Z.shiftl newsize 1) minused
      else newsize
  end.

Fixpoint dictresize_fill (mask : Z) (eps : list PyDictEntry)
    (table : gmap Z PyDictEntry) : option (gmap Z PyDictEntry) :=
  match eps with
  | [] => Some table
  | ep :: eps' =>
      match insertdict_clean mask table ep with
      | Some table' => dictresize_fill mask eps' table'
      | None => None
      end
  end.

(** [dictresize]: a fresh table, filled from the old one in slot order.
    (C keeps the small table when [newsize] is [PyDict_MINSIZE]; a resize
    that [PyDict_SetItem] asks for is always to a larger table.) *)
Definition dictresize (d : PyDict) (minused : Z) : option PyDict :=
  let newsize := dictresize_newsize (Z.to_nat minused) PyDict_MINSIZE minused in
  match dictresize_fill (newsize - 1) (dict_entries d) ∅ with
  | Some table =>
      Some {| ma_used := ma_used d; ma_mask := newsize - 1; ma_table := table |}
  | None => None
  end.

(** [PyDict_SetItem], that is [d[key] = value]. *)
Definition PyDict_SetItem (d : PyDict) (key : string)
    (value : option string) : option PyDict :=
  let n_used := ma_used d in
  match insertdict d key (string_hash key) value with
  | None => None
  | Some d' =>
      if negb ((n_used <? ma_used d')
               && ((ma_mask d' + 1) * 2 <=? ma_used d' * 3))
      then Some d'
      else dictresize d' ((if 50000 <? ma_used d' then 2 else 4) * ma_used d')
  end.

(** [d.items()], [d.keys()] and [len(d)]. *)
Definition dict_items (d : PyDict) : list (string * option string) :=
  map (fun ep => (me_key ep, me_value ep)) (dict_entries d).

Definition dict_keys (d : PyDict) : list string :=
  map me_key (dict_entries d).

Definition dict_len (d : PyDict) : Z := ma_used d.

(** ** The module's regular expressions *)

(** [[^}]+] is greedy: the longest run of characters other than the closing
    brace, and what follows it. *)
Fixpoint span_body (s : string) : string * string :=
  match s with
  | EmptyString => (EmptyString, EmptyString)
  | String c s' =>
      if Ascii.eqb c "}" then (EmptyString, s)
      else let '(body, rest) := span_body s' in (String c body, rest)
  end.

(** [_template_pattern] matched at the start of [s]: an opening brace, one
    or more characters other than the closing brace, a closing brace.  The
    result is [group(1)] and the text after the match.  The longest run
    ends at the end of the text or in front of a closing brace; a shorter
    run is followed by a character that is not a closing brace, so
    backtracking finds no other match. *)
Definition _template_pattern (s : string) : option (string * string) :=
  match s with
  | String c s' =>
      if Ascii.eqb c "{" then
        match span_body s' with
        | (String b body, String _ rest) => Some (String b body, rest)
        | _ => None
        end
      else None
  | EmptyString => None
  end.

(** [pattern.sub(repl, s)] for a callable [repl]: the list of pieces that
    [re] joins at the end.  A position where the pattern matches yields the
    item [repl] returns, unless that is [None], and the scan resumes after
    the match ([skip] counts the characters of the match still to pass);
    any other character is copied. *)
Fixpoint sub_items (repl : string -> result (option Value)) (s : string)
    (skip : nat) : result (list Value) :=
  match s with
  | EmptyString => Ok []
  | String c s' =>
      match skip with
      | S skip' => sub_items repl s' skip'
      | O =>
          match _template_pattern s with
          | Some (body, _) =>
              let! item := repl body in
              let! items := sub_items repl s' (String.length body + 1) in
              Ok (match item with
                  | Some v => v :: items
                  | None => items
                  end)
          | None =>
              let! items := sub_items repl s' 0 in
              Ok (Scalar (String c EmptyString) :: items)
          end
      end
  end.

(** The final [''.join(pieces)] of [re.sub]: an item that is not a [str]
    is a [TypeError]. *)
Fixpoint join_items (items : list Value) : result string :=
  match items with
  | [] => Ok EmptyString
  | Scalar s :: items' => let! t := join_items items' in Ok (s +:+ t)
  | Sequence _ :: _ => Raise TypeError
  end.

Definition re_sub (repl : string -> result (option Value)) (s : string)
    : result string :=
  let! items := sub_items repl s 0 in
  join_items items.

Definition is_alnum (c : ascii) : bool :=
  let n := ord c in
  ((65 <=? n) && (n <=? 90)) || ((97 <=? n) && (n <=? 122))
  || ((48 <=? n) && (n <=? 57)).

(** [\w] without the [LOCALE] and [UNICODE] flags. *)
Definition is_word (c : ascii) : bool := is_alnum c || Ascii.eqb c "_".

(** [\w*$]: the dollar also matches just before a newline that ends the
    string. *)
Fixpoint word_tail (s : string) : bool :=
  match s with
  | EmptyString => true
  | String c s' =>
      if is_word c then word_tail s'
      else Ascii.eqb c (ascii_of_nat 10) && String.eqb s' EmptyString
  end.

(** [_varname_pattern.match(s)] is not [None]. *)
Definition _varname_pattern (s : string) : bool :=
  match s with
  | String c s' => is_alnum c && word_tail s'
  | EmptyString => false
  end.

(** ** [uri.py] *)

(** [values.get(key, default)]. *)
Definition get (values : gmap string Value) (key : string)
    (default : option Value) : option Value :=
  match values !! key with
  | Some v => Some v
  | None => default
  end.

(** [values.get(key, default)] where [default] is a value, not [None]. *)
Definition get_value (values : gmap string Value) (key : string)
    (default : Value) : Value :=
  match values !! key with
  | Some v => v
  | None => default
  end.

(** The body of the loop of [parse_expansion] before its last statement:
    the name and the default that one variable token declares, with the
    checks of the default and of the name. *)
Definition parse_var (var : string) : result (string * option string) :=
  let! (varname, vardefault) :=
    if contains "=" var then
      match split "=" var with
      | [varname; vardefault] =>
          if String.eqb vardefault EmptyString
          then Raise (TemplateSyntaxError ("Invalid variable: " +:+ repr var))
          else Ok (varname, Some vardefault)
      | _ => Raise ValueError  (* the tuple assignment cannot unpack *)
      end
    else Ok (var, None) in
  if negb (_varname_pattern varname)
  then Raise (TemplateSyntaxError ("Invalid variable: " +:+ repr varname))
  else Ok (varname, vardefault).

(** [for var in vars_: ...; variables[varname] = vardefault]. *)
Fixpoint parse_vars (vars_ : list string) (variables : PyDict)
    : result PyDict :=
  match vars_ with
  | [] => Ok variables
  | var :: vars_' =>
      let! (varname, vardefault) := parse_var var in
      match PyDict_SetItem variables varname vardefault with
      | Some variables' => parse_vars vars_' variables'
      | None => Diverge
      end
  end.

(** [parse_expansion].  The source returns [(op, arg, variables)] where [op]
    and [arg] are both [None] or both a [str]; the pair is an [option]
    here. *)
Definition parse_expansion (expansion : string)
    : result (option (string * string) * PyDict) :=
  let! (op_arg, vars_) :=
    if contains "|" expansion then
      match split "|" expansion with
      | [op; arg; vars_] => Ok (Some (slice_from_1 op, arg), vars_)
      | _ => Raise ValueError  (* the tuple assignment cannot unpack *)
      end
    else Ok (None, expansion) in
  let vars_ := split "," vars_ in
  let! variables := parse_vars vars_ PyDict_New in
  Ok (op_arg, variables).

Definition percent_encode_value (v : Value) : Value :=
  match v with
  | Sequence l => Sequence (map quote l)
  | Scalar s => Scalar (quote s)
  end.

(** [percent_encode]: [rv[k] = ...] for every item of [values]. *)
Definition percent_encode (values : gmap string Value) : gmap string Value :=
  map_fold (fun k v rv => <[k := percent_encode_value v]> rv) ∅ values.

Module Template.

Fixpoint operator_opt_loop (keys : list string) (arg : string)
    (values : gmap string Value) : string :=
  match keys with
  | [] => EmptyString
  | k :: keys' =>
      match get values k None with
      | None => operator_opt_loop keys' arg values
      | Some v =>
          if has_iter v && (len v =? 0)%nat
          then operator_opt_loop keys' arg values
          else arg
      end
  end.

Definition operator_opt (variables : PyDict) (arg : string)
    (values : gmap string Value) : result string :=
  Ok (operator_opt_loop (dict_keys variables) arg values).

Definition operator_neg (variables : PyDict) (arg : string)
    (values : gmap string Value) : result string :=
  let! r := operator_opt variables arg values in
  if negb (String.eqb r EmptyString) then Ok EmptyString else Ok arg.

Definition operator_listjoin (variables : PyDict) (arg : string)
    (values : gmap string Value) : result string :=
  match dict_keys variables with
  | [] => Raise IndexError
  | k :: _ =>
      match get_value values k (Sequence []) with
      | Sequence l => Ok (join arg l)
      | Scalar s => Ok (join arg (chars s))  (* a [str] is joined by character *)
      end
  end.

Definition operator_join (variables : PyDict) (arg : string)
    (values : gmap string Value) : result string :=
  Ok (join arg
        (omap (fun '(k, default) =>
                 match get values k (Scalar <$> default) with
                 | Some v => Some (k +:+ "=" +:+ str v)
                 | None => None
                 end)
              (dict_items variables))).

Definition operator_prefix (variables : PyDict) (arg : string)
    (values : gmap string Value) : result string :=
  match dict_items variables with
  | [] => Raise IndexError
  | (k, default) :: _ =>
      match get values k (Scalar <$> default) with
      | Some v =>
          if (0 <? len v)%nat then
            match v with
            | Scalar s => Ok (arg +:+ s)
            | Sequence _ => Raise TypeError
            end
          else Ok EmptyString
      | None => Ok EmptyString
      end
  end.

Definition operator_append (variables : PyDict) (arg : string)
    (values : gmap string Value) : result string :=
  match dict_items variables with
  | [] => Raise IndexError
  | (k, default) :: _ =>
      match get values k (Scalar <$> default) with
      | Some v =>
          if (0 <? len v)%nat then
            match v with
            | Scalar s => Ok (s +:+ arg)
            | Sequence _ => Raise TypeError
            end
          else Ok EmptyString
      | None => Ok EmptyString
      end
  end.

(** [getattr(self, "operator_" + op)]: [None] stands for the
    [AttributeError]. *)
Definition getattr_operator (op : string)
    : option (PyDict -> string -> gmap string Value -> result string) :=
  if String.eqb op "opt" then Some operator_opt
  else if String.eqb op "neg" then Some operator_neg
  else if String.eqb op "listjoin" then Some operator_listjoin
  else if String.eqb op "join" then Some operator_join
  else if String.eqb op "prefix" then Some operator_prefix
  else if String.eqb op "append" then Some operator_append
  else None.

(** [_handle_match], applied to [match.group(1)].  The result is the
    Python object handed back to [re.sub]: [None], a [str] or a list. *)
Definition _handle_match (group1 : string) (values : gmap string Value)
    : result (option Value) :=
  let! (op_arg, variables) := parse_expansion group1 in
  match op_arg with
  | Some (String c op' as op, arg) =>
      match getattr_operator op with
      | Some operator =>
          let! r := operator variables arg values in
          Ok (Some (Scalar r))
      | None =>
          Raise (TemplateSyntaxError ("Unexpected operator: " +:+ repr op))
      end
  | _ =>
      if dict_len variables =? 1 then
        match dict_items variables with
        | (key, default) :: _ => Ok (get values key (Scalar <$> default))
        | [] => Raise IndexError
        end
      else Raise AssertionError
  end.

(** [Template.expand]: [values] is the dictionary of the keyword
    arguments of the call. *)
Definition expand (template : string) (values : gmap string Value)
    : result string :=
  let values := percent_encode values in
  re_sub (fun group1 => _handle_match group1 values) template.

End Template.

(** [expand_template(template, values, **kwargs)].  The merged mapping is
    passed as keyword arguments to a method whose first parameter is
    [self], so a key of that name is a [TypeError]. *)
Definition expand_template (template : string)
    (values kwargs : gmap string Value) : result string :=
  let allargs := kwargs ∪ values in
  if decide ("self" ∈ dom allargs) then Raise TypeError
  else Template.expand template allargs.

(** ** Notions used in the statements *)

(** A mapping written as a list of pairs. *)
Definition kw (l : list (string * Value)) : gmap string Value := list_to_map l.

(** [t] contains a block: an opening brace, a non-empty text free of closing
    braces, a closing brace. *)
Definition has_block (t : string) : Prop :=
  exists pre body post,
    t = pre +:+ "{" +:+ body +:+ "}" +:+ post
    /\ body <> EmptyString /\ contains "}" body = false.

(** Text in which every opening brace is closed at once, so that no block
    can start in it whatever follows. *)
Fixpoint is_literal (s : string) : bool :=
  match s with
  | EmptyString => true
  | String c s' =>
      (if Ascii.eqb c "{"
       then match s' with
            | String c' _ => Ascii.eqb c' "}"
            | EmptyString => false
            end
       else true) && is_literal s'
  end.

(** The text that [re.sub] puts in place of a block for the item the
    callback returned; a list has none. *)
Definition item_text (item : option Value) : option string :=
  match item with
  | None => Some EmptyString
  | Some (Scalar s) => Some s
  | Some (Sequence _) => None
  end.

(** *** The invariant of the hash table *)

(** The value of the index [i] of [lookdict_string] after [n] rounds of its
    loop, started from [i] and [perturb]. *)
Fixpoint probe (i perturb : Z) (n : nat) : Z :=
  match n with
  | O => i
  | S n' =>
      probe (Z.shiftl i 2 + i + perturb + 1)
        (Z.shiftr perturb PERTURB_SHIFT) n'
  end.

(** The same index kept in a [size_t] of 64 bits, as C computes it. *)
Fixpoint probe64 (i perturb : Z) (n : nat) : Z :=
  match n with
  | O => i
  | S n' =>
      probe64 (wrap (Z.shiftl i 2 + i + perturb + 1))
        (Z.shiftr perturb PERTURB_SHIFT) n'
  end.

(** The [n]-th slot of the probe sequence of [hash]. *)
Definition slot_at (mask hash : Z) (n : nat) : Z :=
  Z.land (probe (Z.land hash mask) hash n) mask.

(** A lookup of [key] goes past a slot that holds another key, and stops
    at a free slot or at the slot of [key]. *)
Definition passes (table : gmap Z PyDictEntry) (key : string) (slot : Z)
    : Prop :=
  exists ep, table !! slot = Some ep /\ me_key ep <> key.

Definition stops (table : gmap Z PyDictEntry) (key : string) (slot : Z)
    : Prop :=
  match table !! slot with
  | None => True
  | Some ep => me_key ep = key
  end.

(** An entry sits where a lookup of its key arrives: the lookup goes past
    every earlier slot of the probe sequence. *)
Definition reachable (table : gmap Z PyDictEntry) (mask : Z)
    (ep : PyDictEntry) (slot : Z) : Prop :=
  exists n : nat,
    slot_at mask (me_hash ep) n = slot
    /\ forall m : nat, (m < n)%nat ->
         passes table (me_key ep) (slot_at mask (me_hash ep) m).

(** The table holds [value] under [key]. *)
Definition holds (table : gmap Z PyDictEntry) (key : string)
    (value : option string) : Prop :=
  exists slot ep,
    table !! slot = Some ep /\ me_key ep = key /\ me_value ep = value.

(** No slot of the table holds [key]. *)
Definition key_absent (table : gmap Z PyDictEntry) (key : string) : Prop :=
  forall slot ep, table !! slot = Some ep -> me_key ep <> key.

Record table_wf (mask : Z) (table : gmap Z PyDictEntry) : Prop := {
  wf_mask : exists k : nat, mask = 2 ^ Z.of_nat k - 1;
  wf_dom : forall slot ep, table !! slot = Some ep -> 0 <= slot <= mask;
  wf_hash : forall slot ep,
    table !! slot = Some ep -> me_hash ep = string_hash (me_key ep);
  wf_reach : forall slot ep,
    table !! slot = Some ep -> reachable table mask ep slot
}.

(** The dictionaries that [PyDict_New] and [PyDict_SetItem] build: the
    table is well formed, [ma_used] counts its entries, and fewer than two
    thirds of the slots are taken. *)
Record dict_wf (d : PyDict) : Prop := {
  wf_table : table_wf (ma_mask d) (ma_table d);
  wf_used : ma_used d = Z.of_nat (size (ma_table d));
  wf_room : ma_used d * 3 < (ma_mask d + 1) * 2
}.

(** The mapping a dictionary stands for. *)
Definition dict_map (d : PyDict) : gmap string (option string) :=
  list_to_map (dict_items d).

(** The declarations of a list of variable tokens, in the order of the
    tokens; the first token that is in error decides the outcome. *)
Fixpoint parse_var_list (vars_ : list string)
    : result (list (string * option string)) :=
  match vars_ with
  | [] => Ok []
  | var :: vars_' =>
      let! decl := parse_var var in
      let! decls := parse_var_list vars_' in
      Ok (decl :: decls)
  end.

(** The mapping that a sequence of declarations leaves behind: a later
    declaration of a name replaces an earlier one. *)
Definition declare (m : gmap string (option string))
    (decls : list (string * option string)) : gmap string (option string) :=
  foldl (fun m decl => <[decl.1 := decl.2]> m) m decls.

(** A decision procedure for [has_block]: the pattern matches at some
    position of [t]. *)
Fixpoint search_block (t : string) : bool :=
  match _template_pattern t with
  | Some _ => true
  | None =>
      match t with
      | EmptyString => false
      | String _ t' => search_block t'
      end
  end.

(** The characters [urllib.quote] leaves alone: letters, digits, and four
    marks. *)
Definition quote_safe (c : ascii) : bool := is_alnum c || contains c "_.-/".

(** The unreserved characters of RFC 3986, and the encoding that lets
    exactly these pass. *)
Definition rfc3986_unreserved (c : ascii) : bool :=
  is_alnum c || contains c "-._~".

Fixpoint rfc3986_encode (s : string) : string :=
  match s with
  | EmptyString => EmptyString
  | String c s' =>
      (if rfc3986_unreserved c then String c EmptyString
       else String "%" (hex2 true c)) +:+ rfc3986_encode s'
  end.

(** The number that two upper-case hexadecimal digits denote. *)
Definition hex_value (c : ascii) : option Z :=
  let n := ord c in
  if (48 <=? n) && (n <=? 57) then Some (n - 48)
  else if (65 <=? n) && (n <=? 70) then Some (n - 55)
  else None.

Definition hex_decode (s : string) : option Z :=
  match s with
  | String hi (String lo EmptyString) =>
      match hex_value hi, hex_value lo with
      | Some a, Some b => Some (16 * a + b)
      | _, _ => None
      end
  | _ => None
  end.

(** The looked-up value of a declared variable as the specification
    defines it for every operator: the entry of the name in the encoded
    values if there is one, else the declared default. *)
Definition spec_lookup (values : gmap string Value) (name : string)
    (default : option string) : option Value :=
  match values !! name with
  | Some v => Some v
  | None => Scalar <$> default
  end.

(** The pair that [join] emits for a declared variable, if any. *)
Definition join_pair (values : gmap string Value)
    (decl : string * option string) : option string :=
  match spec_lookup values decl.1 decl.2 with
  | Some v => Some (decl.1 +:+ "=" +:+ str v)
  | None => None
  end.

(** The pairs in the order of the declarations, as the specification has
    them. *)
Definition spec_join (decls : list (string * option string)) (arg : string)
    (values : gmap string Value) : string :=
  join arg (omap (join_pair values) decls).

(** A value that is present and is not an empty sequence. *)
Definition opt_truthy (v : option Value) : bool :=
  match v with
  | None => false
  | Some (Sequence []) => false
  | Some _ => true
  end.

(** The dictionary of the declaration [foo=wilma]. *)
Definition foo_wilma : PyDict :=
  Eval vm_compute in
    match PyDict_SetItem PyDict_New "foo" (Some "wilma") with
    | Some d => d
    | None => PyDict_New
    end.

(** Every opening brace of the text has a closing brace later in the
    text. *)
Fixpoint braces_closed (s : string) : bool :=
  match s with
  | EmptyString => true
  | String c s' =>
      (negb (Ascii.eqb c "{") || contains "}" s') && braces_closed s'
  end.

(** * Properties *)

(** ** Strings *)

Lemma str_app_nil_l (s : string) : EmptyString +:+ s = s.
Proof. reflexivity. Qed.

Lemma str_app_cons (c : ascii) (s t : string) :
  String c s +:+ t = String c (s +:+ t).
Proof. reflexivity. Qed.

Lemma str_app_nil_r (s : string) : s +:+ EmptyString = s.
Proof. induction s as [|c s IH]; [done|]. by rewrite str_app_cons, IH. Qed.

Lemma str_app_assoc (s t u : string) : (s +:+ t) +:+ u = s +:+ t +:+ u.
Proof. induction s as [|c s IH]; [done|]. by rewrite !str_app_cons, IH. Qed.

Lemma str_length_app (s t : string) :
  String.length (s +:+ t) = (String.length s + String.length t)%nat.
Proof. induction s as [|c s IH]; [done|]. rewrite str_app_cons. simpl. by rewrite IH. Qed.

Lemma contains_app (c : ascii) (s t : string) :
  contains c (s +:+ t) = contains c s || contains c t.
Proof.
  induction s as [|c' s IH]; [done|].
  rewrite str_app_cons. simpl. rewrite IH. by rewrite orb_assoc.
Qed.

Lemma contains_false_split (c : ascii) (s : string) :
  contains c s = false -> split c s = [s].
Proof.
  induction s as [|c' s IH]; [done|]. simpl.
  intros [Hc Hs]%orb_false_iff. rewrite Hc. by rewrite (IH Hs).
Qed.

(** ** The template pattern and [re.sub] *)

Lemma span_body_free (body rest : string) :
  contains "}" body = false ->
  span_body (body +:+ String "}" rest) = (body, String "}" rest).
Proof.
  induction body as [|c body IH]; [done|].
  rewrite str_app_cons. simpl. intros [Hc Hs]%orb_false_iff.
  rewrite Hc. by rewrite (IH Hs).
Qed.

Lemma span_body_spec (s body rest : string) :
  span_body s = (body, rest) ->
  s = body +:+ rest /\ contains "}" body = false
  /\ (rest = EmptyString \/ exists rest', rest = String "}" rest').
Proof.
  revert body rest. induction s as [|c s IH]; intros body rest; simpl.
  - intros [= <- <-]. auto.
  - destruct (Ascii.eqb_spec c "}") as [->|Hc].
    + intros [= <- <-]. eauto.
    + destruct (span_body s) as [b r]. intros [= <- <-].
      destruct (IH _ _ eq_refl) as (-> & Hb & Hr).
      split; [done|]. split; [|done]. simpl.
      apply Ascii.eqb_neq in Hc. by rewrite Hc.
Qed.

(** The pattern matches at the start of [s] exactly when [s] opens with a
    block; group 1 is the text between the braces. *)
Lemma _template_pattern_spec (s body rest : string) :
  _template_pattern s = Some (body, rest) <->
  s = "{" +:+ body +:+ "}" +:+ rest
  /\ body <> EmptyString /\ contains "}" body = false.
Proof.
  split.
  - destruct s as [|c s]; [done|]. simpl.
    destruct (Ascii.eqb_spec c "{") as [->|]; [|done].
    destruct (span_body s) as [b r] eqn:E.
    apply span_body_spec in E as (-> & Hb & Hr).
    destruct b as [|c b]; [done|]. destruct r as [|c' r]; [done|].
    intros [= <- <-]. destruct Hr as [|[r' [= -> ->]]]; [done|].
    split; [|by split]. by rewrite !str_app_cons.
  - intros (-> & Hne & Hb). rewrite str_app_cons, str_app_nil_l. simpl.
    change ("}" +:+ rest) with (String "}" rest).
    rewrite (span_body_free _ _ Hb).
    by destruct body.
Qed.

Lemma sub_items_skip repl (x rest : string) :
  sub_items repl (x +:+ rest) (String.length x) = sub_items repl rest 0.
Proof. induction x as [|c x IH]; [done|]. rewrite str_app_cons. simpl. apply IH. Qed.

Lemma sub_items_block repl (body rest : string) :
  body <> EmptyString -> contains "}" body = false ->
  sub_items repl ("{" +:+ body +:+ "}" +:+ rest) 0 =
    (let! item := repl body in
     let! items := sub_items repl rest 0 in
     Ok (match item with Some v => v :: items | None => items end)).
Proof.
  intros Hne Hb.
  assert (_template_pattern ("{" +:+ body +:+ "}" +:+ rest) = Some (body, rest))
    as Hm by (by apply _template_pattern_spec).
  rewrite str_app_cons, str_app_nil_l in *. cbn [sub_items]. rewrite Hm.
  assert (sub_items repl (body +:+ "}" +:+ rest) (String.length body + 1)
          = sub_items repl rest 0) as ->; [|done].
  rewrite <- str_app_assoc.
  replace (String.length body + 1)%nat with (String.length (body +:+ "}")).
  - apply sub_items_skip.
  - rewrite str_length_app. simpl. lia.
Qed.

Lemma sub_items_char repl (c : ascii) (s : string) :
  _template_pattern (String c s) = None ->
  sub_items repl (String c s) 0 =
    (let! items := sub_items repl s 0 in
     Ok (Scalar (String c EmptyString) :: items)).
Proof. intros Hm. cbn [sub_items]. by rewrite Hm. Qed.

Lemma has_block_cons (c : ascii) (s : string) :
  has_block s -> has_block (String c s).
Proof.
  intros (pre & body & post & -> & Hne & Hb).
  exists (String c pre), body, post. by rewrite str_app_cons.
Qed.

Lemma _template_pattern_block (s body rest : string) :
  _template_pattern s = Some (body, rest) -> has_block s.
Proof.
  intros H. apply _template_pattern_spec in H as (-> & Hne & Hb).
  exists EmptyString, body, rest. done.
Qed.

Lemma _template_pattern_no_block (s : string) :
  ~ has_block s -> _template_pattern s = None.
Proof.
  intros Hs. destruct (_template_pattern s) as [[body rest]|] eqn:E; [|done].
  destruct Hs. by eapply _template_pattern_block.
Qed.

Lemma join_items_chars (s : string) (items : list Value) :
  join_items (map Scalar (chars s) ++ items) =
    (let! t := join_items items in Ok (s +:+ t)).
Proof.
  induction s as [|c s IH]; simpl.
  - by destruct (join_items items).
  - rewrite IH. by destruct (join_items items).
Qed.

Lemma sub_items_no_block repl (s : string) :
  ~ has_block s -> sub_items repl s 0 = Ok (map Scalar (chars s)).
Proof.
  induction s as [|c s IH]; intros Hs; [done|].
  rewrite sub_items_char by (by apply _template_pattern_no_block).
  rewrite IH; [done|]. intros H. by apply Hs, has_block_cons.
Qed.

Lemma re_sub_no_block repl (s : string) : ~ has_block s -> re_sub repl s = Ok s.
Proof.
  intros Hs. unfold re_sub. rewrite sub_items_no_block by done. simpl.
  rewrite <- (app_nil_r (map Scalar (chars s))), join_items_chars. simpl.
  by rewrite str_app_nil_r.
Qed.

Lemma is_literal_no_match (c : ascii) (lit tail : string) :
  is_literal (String c lit) = true ->
  _template_pattern (String c (lit +:+ tail)) = None.
Proof.
  simpl. intros [Hc _]%andb_true_iff.
  destruct (Ascii.eqb c "{"); [|done].
  destruct lit as [|c' lit]; [done|].
  apply Ascii.eqb_eq in Hc as ->. by rewrite str_app_cons.
Qed.

Lemma sub_items_literal repl (lit tail : string) :
  is_literal lit = true ->
  sub_items repl (lit +:+ tail) 0 =
    (let! items := sub_items repl tail 0 in
     Ok (map Scalar (chars lit) ++ items)).
Proof.
  induction lit as [|c lit IH]; intros Hl.
  - rewrite str_app_nil_l. simpl. by destruct (sub_items repl tail 0).
  - rewrite str_app_cons, sub_items_char by (by apply is_literal_no_match).
    rewrite IH by (simpl in Hl; by apply andb_true_iff in Hl as [_ ?]).
    by destruct (sub_items repl tail 0).
Qed.

(** One block after literal text: the literal text is copied, the block is
    replaced by the text of the item the callback returns, and the scan
    goes on behind the block. *)
Lemma re_sub_block repl (lit body rest r out : string) (item : option Value) :
  is_literal lit = true ->
  body <> EmptyString -> contains "}" body = false ->
  repl body = Ok item -> item_text item = Some r ->
  re_sub repl rest = Ok out ->
  re_sub repl (lit +:+ "{" +:+ body +:+ "}" +:+ rest) = Ok (lit +:+ r +:+ out).
Proof.
  intros Hl Hne Hb Hrepl Hr Hrest. unfold re_sub in *.
  rewrite sub_items_literal, sub_items_block, Hrepl by done. simpl.
  destruct (sub_items repl rest 0) as [items| |]; [|done..]. simpl in *.
  rewrite join_items_chars.
  destruct item as [[s|l]|]; simplify_eq/=; rewrite Hrest; done.
Qed.

(** ** The probe sequence visits every slot

    Once the perturbation is zero the index follows [i := 5 * i + 1], which
    has full period modulo every power of two. *)

Lemma probe_add (i p : Z) (n m : nat) :
  probe i p (n + m) =
    probe (probe i p n) (Z.shiftr p (PERTURB_SHIFT * Z.of_nat n)) m.
Proof.
  revert i p. induction n as [|n IH]; intros i p.
  - simpl. by rewrite Z.shiftr_0_r.
  - cbn [Nat.add probe]. rewrite IH. f_equal.
    rewrite Z.shiftr_shiftr by (unfold PERTURB_SHIFT; lia).
    f_equal. unfold PERTURB_SHIFT. lia.
Qed.

Lemma probe_0_S (x : Z) (n : nat) :
  probe x 0 (S n) = probe (5 * x + 1) 0 n.
Proof.
  cbn [probe]. rewrite Z.shiftr_0_l, Z.shiftl_mul_pow2 by lia.
  f_equal. lia.
Qed.

Lemma probe_0_linear (x : Z) (n : nat) :
  probe x 0 n = 5 ^ Z.of_nat n * x + probe 0 0 n.
Proof.
  revert x. induction n as [|n IH]; intros x.
  - simpl. lia.
  - rewrite !probe_0_S, (IH (5 * x + 1)), (IH (5 * 0 + 1)).
    rewrite Nat2Z.inj_succ, Z.pow_succ_r by lia. lia.
Qed.

Lemma probe_0_pow (n : nat) : 4 * probe 0 0 n + 1 = 5 ^ Z.of_nat n.
Proof.
  induction n as [|n IH]; [done|].
  rewrite probe_0_S, probe_0_linear.
  rewrite Nat2Z.inj_succ, Z.pow_succ_r by lia. lia.
Qed.

Lemma odd_pow_5 (n : nat) : Z.odd (5 ^ Z.of_nat n) = true.
Proof.
  rewrite <- probe_0_pow.
  replace (4 * probe 0 0 n + 1) with (1 + 2 * (2 * probe 0 0 n)) by lia.
  by rewrite Z.odd_add_mul_2.
Qed.

Lemma probe_0_add (n m : nat) :
  probe 0 0 (n + m) = 5 ^ Z.of_nat m * probe 0 0 n + probe 0 0 m.
Proof.
  rewrite probe_add, Z.shiftr_0_l. apply probe_0_linear.
Qed.

Lemma probe_0_double (m : nat) :
  probe 0 0 (m + m) = 2 * (probe 0 0 m * (1 + 2 * probe 0 0 m)).
Proof. rewrite probe_0_add, <- probe_0_pow. lia. Qed.

Lemma odd_factor (k : nat) (o c : Z) :
  Z.odd o = true -> (2 ^ Z.of_nat k | o * c) -> (2 ^ Z.of_nat k | c).
Proof.
  intros Ho. revert c. induction k as [|k IH]; intros c Hd.
  - simpl. apply Z.divide_1_l.
  - rewrite Nat2Z.inj_succ, Z.pow_succ_r in * by lia.
    assert (Z.even c = true) as Hc.
    { destruct Hd as [q Hq].
      assert (Z.even (o * c) = true) as He.
      { rewrite Hq, Z.even_mul, (Z.even_mul 2). simpl. by rewrite orb_true_r. }
      rewrite Z.even_mul in He. rewrite <- Z.negb_odd, Ho in He. done. }
    apply Z.even_spec in Hc as [c' ->].
    apply Z.mul_divide_mono_l. apply IH.
    apply (Z.mul_divide_cancel_l _ _ 2); [lia|].
    by replace (2 * (o * c')) with (o * (2 * c')) by lia.
Qed.

(** The sum [1 + 5 + ... + 5 ^ (d - 1)] is divisible by a power of two only
    if [d] is. *)
Lemma probe_0_divide (k d : nat) :
  (2 ^ Z.of_nat k | probe 0 0 d) -> (2 ^ Z.of_nat k | Z.of_nat d).
Proof.
  revert d. induction k as [|k IH]; intros d Hd.
  - simpl. apply Z.divide_1_l.
  - rewrite Nat2Z.inj_succ, Z.pow_succ_r in * by lia.
    destruct (Nat.Even_or_Odd d) as [[m ->]|[m ->]].
    + replace (2 * m)%nat with (m + m)%nat in * by lia.
      rewrite probe_0_double in Hd.
      apply Z.mul_divide_cancel_l in Hd; [|lia].
      rewrite Z.mul_comm in Hd. apply odd_factor in Hd.
      * rewrite Nat2Z.inj_add. replace (Z.of_nat m + Z.of_nat m) with (2 * Z.of_nat m) by lia.
        by apply Z.mul_divide_mono_l, IH.
      * by rewrite Z.odd_add_mul_2.
    + exfalso. replace (2 * m + 1)%nat with (S (m + m)) in Hd by lia.
      rewrite probe_0_S, probe_0_linear, probe_0_double in Hd.
      destruct Hd as [q Hq].
      assert (Z.odd (5 ^ Z.of_nat (m + m) * (5 * 0 + 1)
                     + 2 * (probe 0 0 m * (1 + 2 * probe 0 0 m))) = true) as Hodd.
      { by rewrite Z.odd_add_mul_2, Z.mul_1_r, odd_pow_5. }
      rewrite Hq in Hodd. rewrite Z.odd_mul, (Z.odd_mul 2) in Hodd.
      simpl in Hodd. by rewrite andb_false_r in Hodd.
Qed.

Lemma probe_0_inj (k : nat) (x : Z) (a b : nat) :
  (a <= b)%nat -> Z.of_nat b < 2 ^ Z.of_nat k ->
  probe x 0 a mod 2 ^ Z.of_nat k = probe x 0 b mod 2 ^ Z.of_nat k ->
  a = b.
Proof.
  intros Hab Hb Heq.
  assert (0 < 2 ^ Z.of_nat k) as Hpos by (apply Z.pow_pos_nonneg; lia).
  symmetry in Heq. apply Z.cong_iff_0, Z.mod_divide in Heq; [|lia].
  replace b with ((b - a) + a)%nat in Heq at 1 by lia.
  rewrite probe_add, Z.shiftr_0_l in Heq.
  rewrite (probe_0_linear (probe _ _ _)), (probe_0_linear x a) in Heq.
  rewrite (probe_0_linear x (b - a)) in Heq.
  replace (5 ^ Z.of_nat a * (5 ^ Z.of_nat (b - a) * x + probe 0 0 (b - a))
           + probe 0 0 a - (5 ^ Z.of_nat a * x + probe 0 0 a))
    with (5 ^ Z.of_nat a * ((1 + 2 * (2 * x)) * probe 0 0 (b - a))) in Heq
    by (rewrite <- (probe_0_pow (b - a)); lia).
  apply odd_factor in Heq; [|apply odd_pow_5].
  apply odd_factor in Heq; [|by rewrite Z.odd_add_mul_2].
  apply probe_0_divide in Heq.
  destruct (decide (a = b)) as [|Hne]; [done|].
  apply Z.divide_pos_le in Heq; lia.
Qed.

Lemma probe_0_onto (k : nat) (x t : Z) :
  0 <= t < 2 ^ Z.of_nat k ->
  exists j : nat,
    Z.of_nat j < 2 ^ Z.of_nat k /\ probe x 0 j mod 2 ^ Z.of_nat k = t.
Proof.
  intros Ht.
  assert (0 < 2 ^ Z.of_nat k) as Hpos by (apply Z.pow_pos_nonneg; lia).
  set (f := fun j : nat => probe x 0 j mod 2 ^ Z.of_nat k).
  set (l := f <$> seq 0 (2 ^ k)).
  assert (Z.of_nat (2 ^ k) = 2 ^ Z.of_nat k) as Hpow
    by (by rewrite Nat2Z.inj_pow).
  assert (NoDup l) as Hnd.
  { apply NoDup_fmap_2_strong; [|apply NoDup_seq].
    intros a b Ha%elem_of_seq Hb%elem_of_seq Hf. unfold f in Hf.
    destruct (decide (a <= b)%nat).
    - apply (probe_0_inj k x a b); [lia|lia|done].
    - symmetry. apply (probe_0_inj k x b a); [lia|lia|done]. }
  assert (l ⊆+ seqZ 0 (2 ^ Z.of_nat k)) as Hsub.
  { apply NoDup_submseteq; [done|].
    intros y (j & -> & Hj)%list_elem_of_fmap. apply elem_of_seqZ.
    unfold f. pose proof (Z.mod_pos_bound (probe x 0 j) _ Hpos). lia. }
  apply submseteq_length_Permutation in Hsub.
  - assert (t ∈ l) as (j & Hj & Hin%elem_of_seq)%list_elem_of_fmap.
    { rewrite Hsub. apply elem_of_seqZ. lia. }
    exists j. split; [lia|done].
  - unfold l. rewrite length_fmap, length_seq, length_seqZ. lia.
Qed.

(** The wrap-around of the index at 64 bits does not show in the slots of
    a table of at most [2 ^ 64] slots. *)
Lemma probe64_slot (k : nat) (n : nat) :
  (k <= 64)%nat ->
  forall i i' p : Z,
    i mod 2 ^ Z.of_nat k = i' mod 2 ^ Z.of_nat k ->
    probe64 i p n mod 2 ^ Z.of_nat k = probe i' p n mod 2 ^ Z.of_nat k.
Proof.
  intros Hk. induction n as [|n IH]; intros i i' p Hi; [done|].
  cbn [probe64 probe]. apply IH.
  assert (0 < 2 ^ Z.of_nat k) as Hpos by (apply Z.pow_pos_nonneg; lia).
  unfold wrap. rewrite Z.mod_mod_divide.
  - rewrite !Z.shiftl_mul_pow2 by lia.
    apply Z.cong_iff_0 in Hi. apply Z.cong_iff_0.
    replace (i * 2 ^ 2 + i + p + 1 - (i' * 2 ^ 2 + i' + p + 1))
      with ((i - i') * 5) by lia.
    apply Z.mod_divide in Hi; [|lia]. apply Z.mod_divide; [lia|].
    by apply Z.divide_mul_l.
  - exists (2 ^ (64 - Z.of_nat k)).
    rewrite <- Z.pow_add_r by lia. f_equal. lia.
Qed.

Lemma land_mask (k : nat) (x : Z) :
  Z.land x (2 ^ Z.of_nat k - 1) = x mod 2 ^ Z.of_nat k.
Proof.
  rewrite <- Z.land_ones by lia. by rewrite Z.ones_equiv, <- Z.sub_1_r.
Qed.

(** Every slot turns up in every probe sequence, within the budget. *)
Lemma slot_at_onto (k : nat) (hash t : Z) :
  0 <= hash < 2 ^ 64 -> 0 <= t <= 2 ^ Z.of_nat k - 1 ->
  exists n : nat,
    (1 <= n <= probe_budget (2 ^ Z.of_nat k - 1))%nat
    /\ slot_at (2 ^ Z.of_nat k - 1) hash n = t.
Proof.
  intros Hh Ht.
  destruct (probe_0_onto k
              (probe (Z.land hash (2 ^ Z.of_nat k - 1)) hash 13) t)
    as (j & Hj & Hjt); [lia|].
  exists (13 + j)%nat. split.
  - unfold probe_budget. lia.
  - unfold slot_at. rewrite probe_add, land_mask.
    replace (Z.shiftr hash (PERTURB_SHIFT * Z.of_nat 13)) with 0; [done|].
    unfold PERTURB_SHIFT. rewrite Z.shiftr_div_pow2 by lia. simpl.
    symmetry. apply Z.div_small. lia.
Qed.

(** ** Lookups terminate and find the right slot *)

Lemma stops_or_passes (table : gmap Z PyDictEntry) (key : string) (slot : Z) :
  stops table key slot \/ passes table key slot.
Proof.
  unfold stops, passes. destruct (table !! slot) as [ep|]; [|by left].
  destruct (decide (me_key ep = key)); [by left|right; eauto].
Qed.

Lemma stops_not_passes (table : gmap Z PyDictEntry) (key : string) (slot : Z) :
  stops table key slot -> passes table key slot -> False.
Proof.
  unfold stops. intros Hs (ep & Hep & Hne). rewrite Hep in Hs. done.
Qed.

Lemma lookdict_loop_stops (table : gmap Z PyDictEntry) (mask : Z)
    (key : string) (n : nat) :
  forall (fuel : nat) (i p : Z),
    (1 <= n <= fuel)%nat ->
    stops table key (Z.land (probe i p n) mask) ->
    exists n0 : nat,
      (1 <= n0 <= n)%nat
      /\ lookdict_loop fuel table mask key i p
         = Some (Z.land (probe i p n0) mask)
      /\ stops table key (Z.land (probe i p n0) mask)
      /\ forall m : nat, (1 <= m < n0)%nat ->
           passes table key (Z.land (probe i p m) mask).
Proof.
  induction n as [|n IH]; intros fuel i p Hn Hstop; [lia|].
  destruct fuel as [|fuel]; [lia|]. cbn [lookdict_loop].
  set (i1 := Z.shiftl i 2 + i + p + 1).
  destruct (stops_or_passes table key (Z.land i1 mask)) as [Hs|Hp].
  - exists 1%nat. split; [lia|]. split; [|split; [done|lia]].
    unfold stops in Hs. cbn [probe]. fold i1.
    destruct (table !! Z.land i1 mask) as [ep|]; [|done].
    apply String.eqb_eq in Hs. by rewrite Hs.
  - destruct n as [|n].
    { exfalso. by apply (stops_not_passes table key (Z.land i1 mask)). }
    destruct (IH fuel i1 (Z.shiftr p PERTURB_SHIFT)) as (n0 & Hn0 & Hl & Hs & Hm);
      [lia|done|].
    exists (S n0). split; [lia|]. cbn [probe]. fold i1.
    split; [|split; [done|]].
    + destruct Hp as (ep & -> & Hne).
      apply String.eqb_neq in Hne. by rewrite Hne.
    + intros [|m] Hlt; [lia|]. destruct m as [|m]; [done|].
      cbn [probe]. apply (Hm (S m)). lia.
Qed.

(** With a free slot in the table, [lookdict] returns the first slot of the
    probe sequence at which a lookup of [key] stops. *)
Lemma lookdict_stops (d : PyDict) (k : nat) (key : string) (hash t : Z) :
  ma_mask d = 2 ^ Z.of_nat k - 1 ->
  0 <= hash < 2 ^ 64 ->
  0 <= t <= ma_mask d -> ma_table d !! t = None ->
  exists n0 : nat,
    lookdict d key hash = Some (slot_at (ma_mask d) hash n0)
    /\ stops (ma_table d) key (slot_at (ma_mask d) hash n0)
    /\ forall m : nat, (m < n0)%nat ->
         passes (ma_table d) key (slot_at (ma_mask d) hash m).
Proof.
  intros Hmask Hh Ht Hfree. unfold lookdict.
  destruct (stops_or_passes (ma_table d) key (Z.land hash (ma_mask d)))
    as [Hs|Hp].
  - exists 0%nat. unfold slot_at. cbn [probe].
    assert (Z.land (Z.land hash (ma_mask d)) (ma_mask d)
            = Z.land hash (ma_mask d)) as ->
      by (by rewrite <- Z.land_assoc, Z.land_diag).
    split; [|split; [done|lia]].
    unfold stops in Hs.
    destruct (ma_table d !! Z.land hash (ma_mask d)) as [ep|]; [|done].
    apply String.eqb_eq in Hs. by rewrite Hs.
  - destruct (slot_at_onto k hash t) as (n & Hn & Hnt); [done|lia|].
    rewrite <- Hmask in *.
    destruct (lookdict_loop_stops (ma_table d) (ma_mask d) key n
                (probe_budget (ma_mask d)) (Z.land hash (ma_mask d)) hash)
      as (n0 & Hn0 & Hl & Hs & Hm); [lia| |].
    { unfold slot_at in Hnt. unfold stops. by rewrite Hnt, Hfree. }
    exists n0. split; [|split; [done|]].
    + destruct Hp as (ep & -> & Hne).
      apply String.eqb_neq in Hne. by rewrite Hne.
    + intros [|m] Hlt.
      * unfold slot_at. cbn [probe].
        by rewrite <- Z.land_assoc, Z.land_diag.
      * apply Hm. lia.
Qed.

(** ** Insertion keeps the table well formed *)

Lemma passes_insert (table : gmap Z PyDictEntry) (key : string)
    (slot slot' : Z) (ep : PyDictEntry) :
  passes table key slot' ->
  (slot' = slot -> me_key ep <> key) ->
  passes (<[slot := ep]> table) key slot'.
Proof.
  intros (ep' & Hep' & Hne) Hslot. unfold passes.
  destruct (decide (slot' = slot)) as [->|Hs].
  - rewrite lookup_insert_eq. eauto.
  - rewrite lookup_insert_ne by done. eauto.
Qed.

Lemma reachable_insert (table : gmap Z PyDictEntry) (mask : Z)
    (slot slot' : Z) (ep ep' : PyDictEntry) :
  reachable table mask ep' slot' ->
  (forall m, slot_at mask (me_hash ep') m = slot ->
             passes table (me_key ep') slot -> me_key ep <> me_key ep') ->
  reachable (<[slot := ep]> table) mask ep' slot'.
Proof.
  intros (n & Hn & Hm) Hslot. exists n. split; [done|].
  intros m Hlt. apply passes_insert; [by apply Hm|].
  intros Heq. apply (Hslot m Heq). rewrite <- Heq. by apply Hm.
Qed.

(** Two slots never hold the same key. *)
Lemma table_wf_key_inj (mask : Z) (table : gmap Z PyDictEntry)
    (s1 s2 : Z) (e1 e2 : PyDictEntry) :
  table_wf mask table ->
  table !! s1 = Some e1 -> table !! s2 = Some e2 ->
  me_key e1 = me_key e2 -> s1 = s2.
Proof.
  intros Hwf H1 H2 Hk.
  assert (me_hash e1 = me_hash e2) as Hh.
  { rewrite (wf_hash _ _ Hwf _ _ H1), (wf_hash _ _ Hwf _ _ H2). by rewrite Hk. }
  destruct (wf_reach _ _ Hwf _ _ H1) as (n1 & Hn1 & Hm1).
  destruct (wf_reach _ _ Hwf _ _ H2) as (n2 & Hn2 & Hm2).
  destruct (Nat.lt_trichotomy n1 n2) as [Hlt|[->|Hlt]].
  - destruct (Hm2 n1 Hlt) as (ep & Hep & Hne).
    rewrite <- Hh, Hn1, H1 in Hep. by simplify_eq.
  - by rewrite <- Hn1, <- Hn2, Hh.
  - destruct (Hm1 n2 Hlt) as (ep & Hep & Hne).
    rewrite Hh, Hn2, H2 in Hep. by simplify_eq.
Qed.

(** A lookup of a key of the table stops at its slot. *)
Lemma lookup_present (mask : Z) (table : gmap Z PyDictEntry)
    (slot : Z) (ep : PyDictEntry) (n0 : nat) :
  table_wf mask table -> table !! slot = Some ep ->
  stops table (me_key ep) (slot_at mask (me_hash ep) n0) ->
  (forall m : nat, (m < n0)%nat ->
     passes table (me_key ep) (slot_at mask (me_hash ep) m)) ->
  slot_at mask (me_hash ep) n0 = slot.
Proof.
  intros Hwf Hep Hstop Hpass.
  destruct (wf_reach _ _ Hwf _ _ Hep) as (n & Hn & Hm).
  destruct (Nat.lt_trichotomy n n0) as [Hlt|[->|Hlt]]; [|done|].
  - destruct (Hpass n Hlt) as (ep' & Hep' & Hne).
    rewrite Hn, Hep in Hep'. by simplify_eq.
  - exfalso. eapply stops_not_passes; [done|]. by apply Hm.
Qed.

Lemma table_wf_update (mask : Z) (table : gmap Z PyDictEntry)
    (slot : Z) (ep : PyDictEntry) (value : option string) :
  table_wf mask table -> table !! slot = Some ep ->
  table_wf mask
    (<[slot := {| me_hash := me_hash ep; me_key := me_key ep;
                  me_value := value |}]> table).
Proof.
  intros Hwf Hep. split.
  - apply Hwf.
  - intros s e [[-> <-]|[_ He]]%lookup_insert_Some;
      by eapply (wf_dom _ _ Hwf).
  - intros s e [[-> <-]|[_ He]]%lookup_insert_Some; simpl;
      by eapply (wf_hash _ _ Hwf).
  - intros s e [[-> <-]|[Hs He]]%lookup_insert_Some.
    + destruct (wf_reach _ _ Hwf _ _ Hep) as (n & Hn & Hm).
      exists n. simpl. split; [done|]. intros m Hlt.
      apply passes_insert; [by apply Hm|].
      intros Heq. simpl. destruct (Hm m Hlt) as (ep' & Hep' & Hne).
      rewrite Heq, Hep in Hep'. by simplify_eq.
    + apply reachable_insert; [by eapply (wf_reach _ _ Hwf)|].
      intros m Hm (ep' & Hep' & Hne). simpl. by simplify_eq.
Qed.

Lemma table_wf_fill (mask : Z) (table : gmap Z PyDictEntry)
    (key : string) (value : option string) (n0 : nat) :
  let hash := string_hash key in
  let slot := slot_at mask hash n0 in
  table_wf mask table -> table !! slot = None ->
  (forall m : nat, (m < n0)%nat -> passes table key (slot_at mask hash m)) ->
  table_wf mask
    (<[slot := {| me_hash := hash; me_key := key; me_value := value |}]> table).
Proof.
  intros hash slot Hwf Hfree Hpass.
  assert (forall k s, passes table k s -> s <> slot) as Hocc.
  { intros k s (ep & Hep & _) ->. by rewrite Hfree in Hep. }
  split.
  - apply Hwf.
  - intros s e [[<- <-]|[_ He]]%lookup_insert_Some;
      [|by eapply (wf_dom _ _ Hwf)].
    destruct (wf_mask _ _ Hwf) as [k ->]. subst slot. unfold slot_at.
    rewrite land_mask.
    assert (0 < 2 ^ Z.of_nat k) as Hpos by (apply Z.pow_pos_nonneg; lia).
    pose proof (Z.mod_pos_bound
                  (probe (Z.land hash (2 ^ Z.of_nat k - 1)) hash n0) _ Hpos).
    lia.
  - intros s e [[<- <-]|[_ He]]%lookup_insert_Some; [done|].
    by eapply (wf_hash _ _ Hwf).
  - intros s e [[<- <-]|[Hs He]]%lookup_insert_Some.
    + exists n0. simpl. split; [done|]. intros m Hlt.
      apply passes_insert; [by apply Hpass|].
      intros Heq. exfalso. by apply (Hocc _ _ (Hpass m Hlt)).
    + apply reachable_insert; [by eapply (wf_reach _ _ Hwf)|].
      intros m Hm Hp. exfalso. by apply (Hocc _ _ Hp).
Qed.

Lemma wrap_range (x : Z) : 0 <= wrap x < 2 ^ 64.
Proof. unfold wrap. apply Z.mod_pos_bound. lia. Qed.

Lemma string_hash_range (s : string) : 0 <= string_hash s < 2 ^ 64.
Proof.
  unfold string_hash. destruct s as [|c s]; [lia|].
  cbv zeta. pose proof (wrap_range
    (Z.lxor (string_hash_loop (Z.shiftl (ord c) 7) (String c s))
            (Z.of_nat (String.length (String c s))))) as H.
  destruct (_ =? _); lia.
Qed.

(** A table with fewer entries than slots has a free slot. *)
Lemma free_slot (mask : Z) (table : gmap Z PyDictEntry) :
  Z.of_nat (size table) < mask + 1 ->
  exists t, 0 <= t <= mask /\ table !! t = None.
Proof.
  intros Hsize.
  destruct (decide (Forall (fun t => is_Some (table !! t))
                           (seqZ 0 (mask + 1)))) as [Hall|Hex].
  - exfalso.
    assert (list_to_set (seqZ 0 (mask + 1)) ⊆ dom table) as Hsub.
    { intros t Ht%elem_of_list_to_set. apply elem_of_dom.
      rewrite Forall_forall in Hall. by apply Hall. }
    apply subseteq_size in Hsub.
    rewrite size_dom, size_list_to_set, length_seqZ in Hsub
      by apply NoDup_seqZ.
    lia.
  - apply not_Forall_Exists in Hex; [|apply _].
    apply Exists_exists in Hex as (t & Ht%elem_of_seqZ & Hnone).
    exists t. split; [lia|]. by apply eq_None_not_Some.
Qed.

Lemma insertdict_spec (d : PyDict) (key : string) (value : option string) :
  table_wf (ma_mask d) (ma_table d) ->
  ma_used d = Z.of_nat (size (ma_table d)) ->
  ma_used d < ma_mask d + 1 ->
  exists d',
    insertdict d key (string_hash key) value = Some d'
    /\ ma_mask d' = ma_mask d
    /\ table_wf (ma_mask d') (ma_table d')
    /\ ma_used d' = Z.of_nat (size (ma_table d'))
    /\ ma_used d <= ma_used d' <= ma_used d + 1
    /\ forall k v,
         holds (ma_table d') k v <->
         (k = key /\ v = value) \/ (k <> key /\ holds (ma_table d) k v).
Proof.
  intros Hwf Hused Hroom.
  destruct (free_slot (ma_mask d) (ma_table d)) as (t & Ht & Hfree); [lia|].
  destruct (wf_mask _ _ Hwf) as [k Hmask].
  destruct (lookdict_stops d k key (string_hash key) t)
    as (n0 & Hlook & Hstop & Hpass);
    [done|apply string_hash_range|done|done|].
  unfold insertdict. rewrite Hlook.
  set (slot := slot_at (ma_mask d) (string_hash key) n0) in *.
  unfold stops in Hstop.
  destruct (ma_table d !! slot) as [ep|] eqn:Hep.
  - eexists. split; [done|]. simpl. split; [done|].
    split; [by apply table_wf_update|].
    split; [by rewrite map_size_insert_Some|]. split; [lia|].
    intros k' v'. split.
    + intros (s & e & [[<- <-]|[Hs He]]%lookup_insert_Some & <- & <-).
      * left. done.
      * right. split; [|by exists s, e].
        intros Hk. apply Hs.
        apply (table_wf_key_inj _ _ _ _ _ _ Hwf Hep He). congruence.
    + intros [[-> ->]|[Hne (s & e & He & <- & <-)]].
      * exists slot. eexists. rewrite lookup_insert_eq. done.
      * exists s, e. rewrite lookup_insert_ne; [done|].
        intros <-. rewrite Hep in He. by simplify_eq.
  - assert (key_absent (ma_table d) key) as Habs.
    { intros s e He Hk.
      assert (slot = s) as <-; [|by rewrite Hep in He].
      subst slot. rewrite <- Hk in *.
      rewrite <- (wf_hash _ _ Hwf _ _ He) in *.
      apply (lookup_present _ (ma_table d) s e); try done.
      unfold stops. by rewrite Hep. }
    eexists. split; [done|]. simpl. split; [done|].
    split; [by apply table_wf_fill|].
    split; [rewrite map_size_insert_None by done; lia|]. split; [lia|].
    intros k' v'. split.
    + intros (s & e & [[<- <-]|[Hs He]]%lookup_insert_Some & <- & <-).
      * left. done.
      * right. split; [by eapply Habs|by exists s, e].
    + intros [[-> ->]|[Hne (s & e & He & <- & <-)]].
      * exists slot. eexists. rewrite lookup_insert_eq. done.
      * exists s, e. rewrite lookup_insert_ne; [done|].
        intros <-. rewrite Hep in He. by simplify_eq.
Qed.

(** ** Resizing *)

Lemma insertdict_clean_loop_lookdict (n : nat) (table : gmap Z PyDictEntry)
    (mask : Z) (key : string) (i p : Z) :
  key_absent table key ->
  insertdict_clean_loop n table mask i p = lookdict_loop n table mask key i p.
Proof.
  intros Habs. revert i p. induction n as [|n IH]; intros i p; [done|].
  cbn [insertdict_clean_loop lookdict_loop].
  destruct (table !! _) as [ep|] eqn:Hep; [|done].
  apply Habs, String.eqb_neq in Hep. by rewrite Hep.
Qed.

Lemma insertdict_clean_spec (mask : Z) (table : gmap Z PyDictEntry)
    (ep : PyDictEntry) :
  table_wf mask table ->
  Z.of_nat (size table) < mask + 1 ->
  key_absent table (me_key ep) ->
  me_hash ep = string_hash (me_key ep) ->
  exists slot,
    insertdict_clean mask table ep = Some (<[slot := ep]> table)
    /\ table !! slot = None
    /\ table_wf mask (<[slot := ep]> table).
Proof.
  intros Hwf Hsize Habs Hhash.
  destruct (free_slot mask table) as (t & Ht & Hfree); [done|].
  destruct (wf_mask _ _ Hwf) as [k Hmask].
  set (d := {| ma_used := 0; ma_mask := mask; ma_table := table |}).
  destruct (lookdict_stops d k (me_key ep) (me_hash ep) t)
    as (n0 & Hlook & Hstop & Hpass);
    [done|rewrite Hhash; apply string_hash_range|done|done|].
  simpl in *.
  assert (table !! slot_at mask (me_hash ep) n0 = None) as Hnone.
  { unfold stops in Hstop.
    destruct (table !! slot_at mask (me_hash ep) n0) as [e|] eqn:He; [|done].
    by apply Habs in He. }
  exists (slot_at mask (me_hash ep) n0).
  split; [|split; [done|]].
  - unfold insertdict_clean, lookdict in *. simpl in *.
    destruct (table !! Z.land (me_hash ep) mask) as [e|] eqn:He.
    + apply Habs, String.eqb_neq in He. rewrite He in Hlook.
      rewrite (insertdict_clean_loop_lookdict _ _ _ (me_key ep)) by done.
      by rewrite Hlook.
    + injection Hlook as Hl. by rewrite Hl.
  - destruct ep as [h key value]. simpl in *. subst h.
    by apply table_wf_fill.
Qed.

Lemma dictresize_newsize_spec (n a : nat) (minused : Z) :
  minused < 2 ^ Z.of_nat (a + n) ->
  exists b : nat,
    dictresize_newsize n (2 ^ Z.of_nat a) minused = 2 ^ Z.of_nat b
    /\ minused < 2 ^ Z.of_nat b.
Proof.
  revert a. induction n as [|n IH]; intros a Hlt.
  - exists a. by rewrite Nat.add_0_r in Hlt.
  - cbn [dictresize_newsize].
    destruct (Z.leb_spec (2 ^ Z.of_nat a) minused).
    + destruct (IH (S a)) as (b & Hb & Hlt'); [by rewrite Nat.add_succ_comm|].
      exists b. split; [|done]. rewrite <- Hb. f_equal.
      rewrite Z.shiftl_mul_pow2, Nat2Z.inj_succ, Z.pow_succ_r by lia. lia.
    + by exists a.
Qed.

Lemma table_wf_empty (k : nat) : table_wf (2 ^ Z.of_nat k - 1) ∅.
Proof. split; [by exists k|done..]. Qed.

Lemma dictresize_fill_spec (mask : Z) (eps : list PyDictEntry) :
  forall table : gmap Z PyDictEntry,
    table_wf mask table ->
    Z.of_nat (size table + length eps) < mask + 1 ->
    NoDup (me_key <$> eps) ->
    (forall ep, ep ∈ eps ->
       key_absent table (me_key ep)
       /\ me_hash ep = string_hash (me_key ep)) ->
    exists table',
      dictresize_fill mask eps table = Some table'
      /\ table_wf mask table'
      /\ size table' = (size table + length eps)%nat
      /\ forall ep, (exists slot, table' !! slot = Some ep) <->
                    (exists slot, table !! slot = Some ep) \/ ep ∈ eps.
Proof.
  induction eps as [|ep eps IH]; intros table Hwf Hsize Hnd Heps.
  - exists table. simpl. split; [done|]. split; [done|]. split; [lia|].
    intros e. split; [by left|]. intros [?|?%elem_of_nil]; done.
  - destruct (Heps ep) as [Habs Hhash]; [left|].
    destruct (insertdict_clean_spec mask table ep)
      as (slot & Hins & Hnone & Hwf'); [done|simpl in *; lia|done|done|].
    cbn [dictresize_fill]. rewrite Hins.
    apply NoDup_cons in Hnd as [Hnotin Hnd].
    destruct (IH (<[slot := ep]> table)) as (table' & Hfill & Hwf'' & Hsz & Hel);
      [done| |done| |].
    { rewrite map_size_insert_None by done. simpl in *. lia. }
    { intros e He. destruct (Heps e) as [Habs' Hhash']; [by right|].
      split; [|done].
      intros s e' [[<- <-]|[_ He']]%lookup_insert_Some; [|by eapply Habs'].
      intros Hk. apply Hnotin. rewrite Hk. by apply list_elem_of_fmap_2. }
    exists table'. split; [done|]. split; [done|]. split.
    { rewrite Hsz, map_size_insert_None by done. simpl. lia. }
    intros e. rewrite Hel. split.
    + intros [(s & [[<- <-]|[_ He]]%lookup_insert_Some)|He].
      * right. left.
      * left. by exists s.
      * right. by right.
    + intros [(s & He)|[->|He]%elem_of_cons].
      * left. exists s. rewrite lookup_insert_ne; [done|].
        intros <-. by rewrite Hnone in He.
      * left. exists slot. by rewrite lookup_insert_eq.
      * by right.
Qed.

(** *** The slot-order listing *)

Lemma elem_of_dict_entries (d : PyDict) (ep : PyDictEntry) :
  table_wf (ma_mask d) (ma_table d) ->
  ep ∈ dict_entries d <-> exists slot, ma_table d !! slot = Some ep.
Proof.
  intros Hwf. unfold dict_entries. rewrite list_elem_of_omap. split.
  - intros (slot & _ & Hep). by exists slot.
  - intros (slot & Hep). exists slot. split; [|done].
    apply elem_of_seqZ. pose proof (wf_dom _ _ Hwf _ _ Hep). lia.
Qed.

Lemma length_omap_lookup (l : list Z) :
  forall table : gmap Z PyDictEntry,
    NoDup l -> (forall slot, is_Some (table !! slot) -> slot ∈ l) ->
    length (omap (fun slot => table !! slot) l) = size table.
Proof.
  induction l as [|s l IH]; intros table Hnd Hdom.
  - simpl. symmetry. apply map_size_empty_iff, map_empty.
    intros i. apply eq_None_not_Some. by intros ?%Hdom%elem_of_nil.
  - apply NoDup_cons in Hnd as [Hs Hnd]. cbn [omap list_omap].
    destruct (table !! s) as [ep|] eqn:Hep.
    + replace (size table) with (size (<[s:=ep]> (delete s table)))
        by (by rewrite insert_delete_id).
      rewrite map_size_insert_None by apply lookup_delete_eq.
      simpl. f_equal. rewrite <- (IH (delete s table)); [|done|].
      * f_equal. apply list_omap_ext, Forall2_same_length_lookup_2; [done|].
        intros i x y Hx Hy. simplify_eq. rewrite lookup_delete_ne; [done|].
        intros ->. apply Hs. by eapply list_elem_of_lookup_2.
      * intros slot [e He]. apply lookup_delete_Some in He as [Hne He].
        assert (slot ∈ s :: l) as Hin by (apply Hdom; by eexists).
        by apply elem_of_cons in Hin as [?|?].
    + apply IH; [done|]. intros slot Hsome.
      pose proof (Hdom slot Hsome) as Hin.
      apply elem_of_cons in Hin as [->|Hin]; [|done].
      rewrite Hep in Hsome. by destruct Hsome.
Qed.

Lemma length_dict_entries (d : PyDict) :
  table_wf (ma_mask d) (ma_table d) ->
  length (dict_entries d) = size (ma_table d).
Proof.
  intros Hwf. apply length_omap_lookup; [apply NoDup_seqZ|].
  intros slot [ep Hep]. apply elem_of_seqZ.
  pose proof (wf_dom _ _ Hwf _ _ Hep). lia.
Qed.

Lemma NoDup_omap_keys (mask : Z) (table : gmap Z PyDictEntry) (l : list Z) :
  table_wf mask table -> NoDup l ->
  NoDup (me_key <$> omap (fun slot => table !! slot) l).
Proof.
  intros Hwf. induction l as [|s l IH]; intros Hnd; [constructor|].
  apply NoDup_cons in Hnd as [Hs Hnd]. cbn [omap list_omap].
  destruct (table !! s) as [ep|] eqn:Hep; [|by apply IH].
  rewrite fmap_cons. apply NoDup_cons. split; [|by apply IH].
  intros (ep' & Hk & (s' & Hs' & Hep')%list_elem_of_omap)%list_elem_of_fmap.
  assert (s = s') as -> by by eapply (table_wf_key_inj mask table).
  done.
Qed.

Lemma NoDup_dict_entries_keys (d : PyDict) :
  table_wf (ma_mask d) (ma_table d) -> NoDup (me_key <$> dict_entries d).
Proof. intros Hwf. eapply NoDup_omap_keys; [done|apply NoDup_seqZ]. Qed.

Lemma dictresize_spec (d : PyDict) (minused : Z) :
  table_wf (ma_mask d) (ma_table d) ->
  ma_used d = Z.of_nat (size (ma_table d)) ->
  ma_used d * 2 <= minused ->
  exists d',
    dictresize d minused = Some d'
    /\ dict_wf d'
    /\ forall k v, holds (ma_table d') k v <-> holds (ma_table d) k v.
Proof.
  intros Hwf Hused Hmin. unfold dictresize.
  destruct (dictresize_newsize_spec (Z.to_nat minused) 3 minused)
    as (b & Hb & Hlt).
  { apply Z.lt_le_trans with (2 ^ minused).
    - apply Z.pow_gt_lin_r; lia.
    - apply Z.pow_le_mono_r; lia. }
  change (2 ^ Z.of_nat 3) with PyDict_MINSIZE in Hb. rewrite Hb.
  destruct (dictresize_fill_spec (2 ^ Z.of_nat b - 1) (dict_entries d) ∅)
    as (table' & Hfill & Hwf' & Hsize & Hel).
  - apply table_wf_empty.
  - rewrite map_size_empty, length_dict_entries by done. lia.
  - by apply NoDup_dict_entries_keys.
  - intros ep [slot Hep]%elem_of_dict_entries; [|done].
    split; [done|]. by eapply (wf_hash _ _ Hwf).
  - rewrite Hfill. eexists. split; [done|].
    rewrite map_size_empty, length_dict_entries in Hsize by done.
    split.
    + split; simpl; [done|by rewrite Hsize|lia].
    + intros k v. simpl. unfold holds. split.
      * intros (slot & ep & Hep & Hk & Hv).
        destruct (proj1 (Hel ep)) as [[? ?]|[s Hin]%elem_of_dict_entries];
          [by eexists|done| |done].
        by exists s, ep.
      * intros (slot & ep & Hep & Hk & Hv).
        destruct (proj2 (Hel ep)) as [s Hs].
        { right. apply elem_of_dict_entries; [done|]. by exists slot. }
        by exists s, ep.
Qed.

Lemma dict_wf_New : dict_wf PyDict_New.
Proof.
  split; simpl; [|done|done].
  change (PyDict_MINSIZE - 1) with (2 ^ Z.of_nat 3 - 1).
  apply table_wf_empty.
Qed.

(** [d[key] = value] always completes on a well-formed dictionary; the
    result is well formed, holds [value] under [key], and is otherwise
    unchanged. *)
Lemma PyDict_SetItem_spec (d : PyDict) (key : string) (value : option string) :
  dict_wf d ->
  exists d',
    PyDict_SetItem d key value = Some d'
    /\ dict_wf d'
    /\ forall k v,
         holds (ma_table d') k v <->
         (k = key /\ v = value) \/ (k <> key /\ holds (ma_table d) k v).
Proof.
  intros [Hwf Hused Hroom].
  destruct (wf_mask _ _ Hwf) as [n Hmask].
  assert (0 < ma_mask d + 1) as Hpos.
  { rewrite Hmask. pose proof (Z.pow_pos_nonneg 2 (Z.of_nat n)). lia. }
  destruct (insertdict_spec d key value)
    as (d' & Hins & Hm & Hwf' & Hused' & Hle & Hholds); [done|done|lia|].
  unfold PyDict_SetItem. rewrite Hins.
  destruct (negb _) eqn:Hcond.
  - exists d'. split; [done|]. split; [|done].
    split; [done|done|].
    apply negb_true_iff, andb_false_iff in Hcond as [Hc|Hc].
    + apply Z.ltb_ge in Hc. rewrite Hm. lia.
    + apply Z.leb_gt in Hc. lia.
  - destruct (dictresize_spec d'
                ((if 50000 <? ma_used d' then 2 else 4) * ma_used d'))
      as (d'' & Hres & Hwf'' & Hholds'); [done|done| |].
    { destruct (50000 <? ma_used d'); lia. }
    exists d''. split; [done|]. split; [done|].
    intros k v. by rewrite Hholds', Hholds.
Qed.

(** *** [items()], [keys()] and [len] of a well-formed dictionary *)

Lemma elem_of_dict_items (d : PyDict) (k : string) (v : option string) :
  dict_wf d -> (k, v) ∈ dict_items d <-> holds (ma_table d) k v.
Proof.
  intros [Hwf _ _]. unfold dict_items, holds. rewrite list_elem_of_fmap.
  split.
  - intros (ep & [= -> ->] & [slot Hep]%elem_of_dict_entries); [|done].
    by exists slot, ep.
  - intros (slot & ep & Hep & <- & <-). exists ep. split; [done|].
    apply elem_of_dict_entries; [done|]. by exists slot.
Qed.

Lemma dict_keys_items (d : PyDict) : dict_keys d = (dict_items d).*1.
Proof. unfold dict_keys, dict_items. by rewrite <- list_fmap_compose. Qed.

Lemma NoDup_dict_keys (d : PyDict) : dict_wf d -> NoDup (dict_keys d).
Proof. intros [Hwf _ _]. by apply NoDup_dict_entries_keys. Qed.

Lemma dict_len_items (d : PyDict) :
  dict_wf d -> dict_len d = Z.of_nat (length (dict_items d)).
Proof.
  intros [Hwf Hused _]. unfold dict_len, dict_items.
  by rewrite length_fmap, length_dict_entries.
Qed.

(** *** The mapping of a dictionary *)

Lemma dict_map_lookup (d : PyDict) (k : string) (v : option string) :
  dict_wf d -> dict_map d !! k = Some v <-> holds (ma_table d) k v.
Proof.
  intros Hwf. rewrite <- elem_of_dict_items by done.
  unfold dict_map. rewrite <- elem_of_list_to_map; [done|].
  rewrite <- dict_keys_items. by apply NoDup_dict_keys.
Qed.

Lemma dict_items_map (d : PyDict) :
  dict_wf d -> dict_items d ≡ₚ map_to_list (dict_map d).
Proof.
  intros Hwf. symmetry. apply map_to_list_to_map.
  rewrite <- dict_keys_items. by apply NoDup_dict_keys.
Qed.

Lemma dict_map_New : dict_map PyDict_New = ∅.
Proof. reflexivity. Qed.

(** [d[key] = value] on the mapping. *)
Lemma PyDict_SetItem_map (d : PyDict) (key : string) (value : option string) :
  dict_wf d ->
  exists d',
    PyDict_SetItem d key value = Some d'
    /\ dict_wf d'
    /\ dict_map d' = <[key := value]> (dict_map d).
Proof.
  intros Hwf.
  destruct (PyDict_SetItem_spec d key value Hwf) as (d' & Hset & Hwf' & Hh).
  exists d'. split; [done|]. split; [done|].
  apply map_eq. intros k. apply option_eq. intros v.
  rewrite dict_map_lookup, Hh, lookup_insert_Some, dict_map_lookup by done.
  split; (intros [[-> ->]|[? ?]]; [by left|by right]).
Qed.

(** ** The parser *)

Lemma parse_var_no_Diverge (var : string) : parse_var var <> Diverge.
Proof.
  unfold parse_var. destruct (contains "=" var).
  - destruct (split "=" var) as [|n [|d [|? ?]]]; try done.
    destruct (String.eqb d EmptyString); [done|]. simpl.
    by destruct (negb _).
  - simpl. by destruct (negb _).
Qed.

(** The loop of [parse_expansion] never hangs: it fails on the first token
    in error, and else builds the dictionary of the declarations. *)
Lemma parse_vars_spec (vars_ : list string) :
  forall d0 : PyDict,
    dict_wf d0 ->
    match parse_var_list vars_ with
    | Ok decls =>
        exists d, parse_vars vars_ d0 = Ok d /\ dict_wf d
                  /\ dict_map d = declare (dict_map d0) decls
    | Raise e => parse_vars vars_ d0 = Raise e
    | Diverge => False
    end.
Proof.
  induction vars_ as [|var vars_ IH]; intros d0 Hwf; simpl.
  - by exists d0.
  - pose proof (parse_var_no_Diverge var) as Hnd.
    destruct (parse_var var) as [[k v]| |]; simpl; [|done|done].
    destruct (PyDict_SetItem_map d0 k v Hwf) as (d1 & -> & Hwf1 & Hmap).
    specialize (IH d1 Hwf1).
    destruct (parse_var_list vars_) as [decls|e|]; simpl; [|done|done].
    destruct IH as (d & Hd & Hwfd & Hm). exists d.
    split; [done|]. split; [done|]. by rewrite Hm, Hmap.
Qed.

Lemma split_app (c : ascii) (s1 s2 : string) :
  contains c s1 = false ->
  split c (s1 +:+ String c s2) = s1 :: split c s2.
Proof.
  induction s1 as [|c' s1 IH].
  - intros _. change (EmptyString +:+ String c s2) with (String c s2).
    simpl. by rewrite Ascii.eqb_refl.
  - intros [Hc Hs]%orb_false_iff. rewrite str_app_cons. simpl.
    rewrite Hc. by rewrite (IH Hs).
Qed.

Lemma declare_list_to_map (decls : list (string * option string)) :
  declare ∅ decls = list_to_map (reverse decls).
Proof.
  unfold declare. induction decls as [|[k v] decls IH] using rev_ind; [done|].
  rewrite foldl_app, reverse_snoc. simpl. by rewrite IH.
Qed.

Lemma dict_items_declared (d : PyDict) (decls : list (string * option string)) :
  dict_wf d -> dict_map d = declare ∅ decls ->
  dict_items d ≡ₚ map_to_list (declare ∅ decls).
Proof. intros Hwf <-. by apply dict_items_map. Qed.

(** Without a name declared twice the dictionary lists the declarations,
    in some order. *)
Lemma dict_items_declared_NoDup (d : PyDict)
    (decls : list (string * option string)) :
  dict_wf d -> dict_map d = declare ∅ decls -> NoDup decls.*1 ->
  dict_items d ≡ₚ decls.
Proof.
  intros Hwf Hm Hnd. rewrite (dict_items_declared d decls Hwf Hm).
  rewrite declare_list_to_map, map_to_list_to_map.
  - apply reverse_Permutation.
  - by rewrite reverse_Permutation.
Qed.

Lemma dict_items_declared_single (d : PyDict) (decl : string * option string) :
  dict_wf d -> dict_map d = declare ∅ [decl] ->
  dict_items d = [decl] /\ dict_keys d = [decl.1] /\ dict_len d = 1.
Proof.
  intros Hwf Hm.
  assert (dict_items d = [decl]) as Hitems.
  { apply Permutation_singleton_r, dict_items_declared_NoDup; [done|done|].
    simpl. apply NoDup_singleton. }
  split; [done|]. split.
  - by rewrite dict_keys_items, Hitems.
  - by rewrite dict_len_items, Hitems.
Qed.

Lemma elem_of_dict_keys_declared (d : PyDict)
    (decls : list (string * option string)) (k : string) :
  dict_wf d -> dict_map d = declare ∅ decls ->
  k ∈ dict_keys d <-> k ∈ decls.*1.
Proof.
  intros Hwf Hm. rewrite dict_keys_items.
  rewrite (dict_items_declared d decls Hwf Hm), declare_list_to_map.
  rewrite <- (elem_of_reverse k decls.*1), <- fmap_reverse.
  generalize (reverse decls). intros l.
  change (k ∈ (map_to_list (list_to_map l : gmap string (option string))).*1
          <-> k ∈ l.*1).
  rewrite !list_elem_of_fmap. split.
  - intros ([k' v] & -> & Hkv%elem_of_map_to_list).
    apply elem_of_list_to_map_2 in Hkv. by exists (k', v).
  - intros ([k' v] & -> & Hkv). simpl.
    destruct ((list_to_map l : gmap string (option string)) !! k')
      as [v'|] eqn:Hl.
    + exists (k', v'). split; [done|]. by apply elem_of_map_to_list.
    + apply not_elem_of_list_to_map_2 in Hl. destruct Hl.
      apply list_elem_of_fmap. by exists (k', v).
Qed.

Lemma parse_expansion_plain (body : string) :
  contains "|" body = false ->
  match parse_var_list (split "," body) with
  | Ok decls =>
      exists d, parse_expansion body = Ok (None, d) /\ dict_wf d
                /\ dict_map d = declare ∅ decls
  | Raise e => parse_expansion body = Raise e
  | Diverge => False
  end.
Proof.
  intros Hbar. unfold parse_expansion. rewrite Hbar. simpl.
  pose proof (parse_vars_spec (split "," body) PyDict_New dict_wf_New) as H.
  destruct (parse_var_list (split "," body)) as [decls|e|]; [|by rewrite H|done].
  destruct H as (d & -> & Hwf & Hm). by exists d.
Qed.

Lemma parse_expansion_operator (optoken arg vars_ : string) :
  contains "|" optoken = false -> contains "|" arg = false ->
  contains "|" vars_ = false ->
  match parse_var_list (split "," vars_) with
  | Ok decls =>
      exists d,
        parse_expansion (optoken +:+ "|" +:+ arg +:+ "|" +:+ vars_)
        = Ok (Some (slice_from_1 optoken, arg), d)
        /\ dict_wf d /\ dict_map d = declare ∅ decls
  | Raise e =>
      parse_expansion (optoken +:+ "|" +:+ arg +:+ "|" +:+ vars_) = Raise e
  | Diverge => False
  end.
Proof.
  intros Ho Ha Hv. unfold parse_expansion.
  assert (contains "|" (optoken +:+ "|" +:+ arg +:+ "|" +:+ vars_) = true)
    as -> by (rewrite contains_app; simpl; by rewrite orb_true_r).
  change ("|" +:+ arg +:+ "|" +:+ vars_)
    with (String "|" (arg +:+ String "|" vars_)).
  rewrite !split_app, (contains_false_split _ _ Hv) by done. simpl.
  pose proof (parse_vars_spec (split "," vars_) PyDict_New dict_wf_New) as H.
  destruct (parse_var_list (split "," vars_)) as [decls|e|]; [|by rewrite H|done].
  destruct H as (d & -> & Hwf & Hm). by exists d.
Qed.

Lemma parse_expansion_operator_eq (optoken arg vars_ : string) :
  contains "|" optoken = false -> contains "|" arg = false ->
  contains "|" vars_ = false ->
  parse_expansion (optoken +:+ "|" +:+ arg +:+ "|" +:+ vars_)
  = (let! variables := parse_vars (split "," vars_) PyDict_New in
     Ok (Some (slice_from_1 optoken, arg), variables)).
Proof.
  intros Ho Ha Hv. unfold parse_expansion.
  assert (contains "|" (optoken +:+ "|" +:+ arg +:+ "|" +:+ vars_) = true)
    as -> by (rewrite contains_app; simpl; by rewrite orb_true_r).
  change ("|" +:+ arg +:+ "|" +:+ vars_)
    with (String "|" (arg +:+ String "|" vars_)).
  by rewrite !split_app, (contains_false_split _ _ Hv) by done.
Qed.

(** [parse_expansion] always returns or raises. *)
Lemma parse_expansion_no_Diverge (body : string) :
  parse_expansion body <> Diverge.
Proof.
  unfold parse_expansion.
  destruct (if contains "|" body then _ else _) as [[op_arg vars_]|e|] eqn:E;
    simpl; [|done|].
  - pose proof (parse_vars_spec (split "," vars_) PyDict_New dict_wf_New) as H.
    destruct (parse_var_list (split "," vars_)) as [decls|e|]; [|by rewrite H|done].
    by destruct H as (d & -> & _).
  - destruct (contains "|" body); [|done].
    by destruct (split "|" body) as [|? [|? [|? [|? ?]]]].
Qed.

(** ** The percent-encoder *)

Lemma percent_encode_lookup (values : gmap string Value) (k : string) :
  percent_encode values !! k = percent_encode_value <$> values !! k.
Proof.
  unfold percent_encode.
  apply (map_fold_weak_ind
           (fun (rv : gmap string Value) (m : gmap string Value) =>
              rv !! k = percent_encode_value <$> m !! k)).
  - done.
  - intros i x m r Hi IH. destruct (decide (i = k)) as [->|Hne].
    + by rewrite !lookup_insert_eq.
    + by rewrite !lookup_insert_ne.
Qed.

Lemma percent_encode_fmap (values : gmap string Value) :
  percent_encode values = percent_encode_value <$> values.
Proof. apply map_eq. intros k. by rewrite percent_encode_lookup, lookup_fmap. Qed.

(** ** Variable names *)

Lemma word_tail_contains (c : ascii) (s : string) :
  is_word c = false -> Ascii.eqb c (ascii_of_nat 10) = false ->
  word_tail s = true -> contains c s = false.
Proof.
  intros Hw Hn. induction s as [|c' s IH]; [done|]. simpl.
  destruct (Ascii.eqb_spec c' c) as [->|Hne].
  - rewrite Hw. intros [Hc _]%andb_true_iff. by rewrite Hc in Hn.
  - destruct (is_word c'); [done|].
    intros [_ ->%String.eqb_eq]%andb_true_iff. done.
Qed.

(** A name that [_varname_pattern] accepts is not empty and contains none
    of the characters that delimit an expansion. *)
Lemma _varname_pattern_chars (name : string) (c : ascii) :
  _varname_pattern name = true ->
  is_word c = false -> Ascii.eqb c (ascii_of_nat 10) = false ->
  name <> EmptyString /\ contains c name = false.
Proof.
  destruct name as [|c' name]; [done|]. simpl.
  intros [Ha Ht]%andb_true_iff Hw Hn. split; [done|].
  rewrite (word_tail_contains c name) by done.
  destruct (Ascii.eqb_spec c' c) as [->|]; [|done].
  unfold is_word in Hw. by rewrite Ha in Hw.
Qed.

Lemma parse_var_name (name : string) :
  _varname_pattern name = true -> parse_var name = Ok (name, None).
Proof.
  intros Hname. unfold parse_var.
  destruct (_varname_pattern_chars name "=" Hname) as [_ ->]; [done..|].
  simpl. by rewrite Hname.
Qed.

(** ** Plain substitution *)

(** The expansion of a single name without default is the entry of the
    name in the values, or [None]. *)
Lemma _handle_match_name (name : string) (values : gmap string Value) :
  _varname_pattern name = true ->
  Template._handle_match name values = Ok (values !! name).
Proof.
  intros Hname. unfold Template._handle_match.
  destruct (_varname_pattern_chars name "|" Hname) as [_ Hbar]; [done..|].
  destruct (_varname_pattern_chars name "," Hname) as [_ Hcomma]; [done..|].
  pose proof (parse_expansion_plain name Hbar) as H.
  rewrite (contains_false_split _ _ Hcomma) in H. simpl in H.
  rewrite (parse_var_name name Hname) in H. simpl in H.
  destruct H as (d & -> & Hwf & Hm). simpl.
  destruct (dict_items_declared_single d (name, None) Hwf Hm)
    as (-> & _ & ->).
  simpl. unfold get. by destruct (values !! name).
Qed.

(** [expand_template] called with a mapping and no keyword argument: the
    mapping is handed to [Template.expand] as keyword arguments, and the
    key [self] collides with the first parameter of the method. *)
Lemma expand_template_values (template : string)
    (values : gmap string Value) :
  expand_template template values ∅
  = if decide ("self" ∈ dom values) then Raise TypeError
    else Template.expand template values.
Proof. unfold expand_template. by rewrite (left_id_L ∅ (∪)). Qed.

Lemma expand_name_absent (name : string) (values : gmap string Value) :
  _varname_pattern name = true ->
  values !! name = None ->
  Template.expand ("{" +:+ name +:+ "}") values = Ok EmptyString.
Proof.
  intros Hname Habs. unfold Template.expand.
  destruct (_varname_pattern_chars name "}" Hname) as [Hne Hbrace]; [done..|].
  change ("{" +:+ name +:+ "}")
    with (EmptyString +:+ "{" +:+ name +:+ "}" +:+ EmptyString).
  apply (re_sub_block _ EmptyString name EmptyString EmptyString EmptyString None);
    try done.
  rewrite _handle_match_name by done.
  by rewrite percent_encode_lookup, Habs.
Qed.

(** C1. Plain substitution of a variable that the caller's values do not
    contain and that declares no default, at the entry point
    [expand_template(template, values)]: for every name the parser accepts,
    and so for [foo], and for every mapping without that name, the block of
    that name expands to the empty text, unless the mapping has the key
    [self]: then the call raises a [TypeError], as it does for the mapping
    that holds only that key. *)
Theorem C1_plain_absent_is_empty (name : string)
    (values : gmap string Value) :
  _varname_pattern name = true ->
  values !! name = None ->
  expand_template ("{" +:+ name +:+ "}") values ∅
  = (if decide ("self" ∈ dom values) then Raise TypeError
     else Ok EmptyString)
  /\ expand_template "{foo}" (kw [("self", Scalar "x")]) ∅ = Raise TypeError.
Proof.
  intros Hname Habs. split; [|reflexivity].
  rewrite expand_template_values.
  destruct (decide ("self" ∈ dom values)); [done|].
  by apply expand_name_absent.
Qed.

Lemma C1_plain_absent_is_empty_witness :
  expand_template "{foo}" (kw [("bar", Scalar "barney")]) ∅ = Ok EmptyString
  /\ (kw [("self", Scalar "x")]) !! "foo" = None
  /\ expand_template "{foo}" (kw [("self", Scalar "x")]) ∅ = Raise TypeError.
Proof.
  split; [|split; [reflexivity|]].
  - exact (proj1 (C1_plain_absent_is_empty "foo"
                    (kw [("bar", Scalar "barney")]) eq_refl eq_refl)).
  - exact (proj2 (C1_plain_absent_is_empty "foo"
                    (kw [("self", Scalar "x")]) eq_refl eq_refl)).
Defined.

(** ** Literal text *)

Lemma search_block_complete (t : string) :
  has_block t -> search_block t = true.
Proof.
  intros (pre & body & post & -> & Hne & Hb).
  induction pre as [|c pre IH].
  - rewrite str_app_nil_l.
    assert (_template_pattern ("{" +:+ body +:+ "}" +:+ post)
            = Some (body, post)) as Hm by (by apply _template_pattern_spec).
    destruct body as [|b body]; [done|].
    rewrite str_app_cons in *. cbn [search_block]. by rewrite Hm.
  - rewrite str_app_cons. cbn [search_block].
    by destruct (_template_pattern _).
Qed.

Lemma search_block_false (t : string) :
  search_block t = false -> ~ has_block t.
Proof.
  intros Hs Hb%search_block_complete. by rewrite Hs in Hb.
Qed.

(** C9. At the entry point [expand_template(template, values)] a template
    without any block expands to itself, and more generally literal text
    is copied unchanged: when a template consists of literal text, a block
    and a rest, its expansion is that literal text, followed by the text
    that replaces the block, followed by the expansion of the rest.  This
    holds for every mapping but those with the key [self]: for them the
    call raises a [TypeError], also for a template without a block. *)
Theorem C9_literal_text_unchanged (values : gmap string Value) :
  (forall t : string,
     ~ has_block t ->
     expand_template t values ∅
     = if decide ("self" ∈ dom values) then Raise TypeError else Ok t)
  /\ (forall (lit body rest r out : string) (item : option Value),
        is_literal lit = true ->
        body <> EmptyString -> contains "}" body = false ->
        Template._handle_match body (percent_encode values) = Ok item ->
        item_text item = Some r ->
        expand_template rest values ∅ = Ok out ->
        expand_template (lit +:+ "{" +:+ body +:+ "}" +:+ rest) values ∅
        = Ok (lit +:+ r +:+ out))
  /\ expand_template "abc" (kw [("self", Scalar "x")]) ∅ = Raise TypeError.
Proof.
  split; [|split; [|reflexivity]].
  - intros t Ht. rewrite expand_template_values.
    destruct (decide ("self" ∈ dom values)); [done|].
    by apply re_sub_no_block.
  - intros lit body rest r out item Hlit Hne Hb Hitem Hr.
    rewrite !expand_template_values.
    destruct (decide ("self" ∈ dom values)); [done|].
    intros Hrest. unfold Template.expand in *. by eapply re_sub_block.
Qed.

Lemma C9_literal_text_unchanged_witness :
  expand_template "http://example.com/a{b" (kw [("b", Scalar "x")]) ∅
  = Ok "http://example.com/a{b"
  /\ expand_template "http://{}/{host}/{}" (kw [("host", Scalar "h")]) ∅
     = Ok "http://{}/h/{}"
  /\ expand_template "http://example.com/a{b" (kw [("self", Scalar "x")]) ∅
     = Raise TypeError.
Proof.
  split; [|split].
  - apply (proj1 (C9_literal_text_unchanged (kw [("b", Scalar "x")]))
             "http://example.com/a{b").
    apply search_block_false. reflexivity.
  - apply (proj1 (proj2 (C9_literal_text_unchanged (kw [("host", Scalar "h")])))
             "http://{}/" "host" "/{}" "h" "/{}" (Some (Scalar "h")));
      (reflexivity || discriminate).
  - apply (proj1 (C9_literal_text_unchanged (kw [("self", Scalar "x")]))
             "http://example.com/a{b").
    apply search_block_false. reflexivity.
Defined.

(** C10. An empty pair of braces and an opening brace that is never closed
    are neither blocks nor errors: the pattern matches exactly an opening
    brace, one or more characters other than the closing brace, and a
    closing brace, so at the entry point [expand_template(template, values)]
    both templates expand to themselves, for every mapping but those with
    the key [self]: for them the call raises a [TypeError]. *)
Theorem C10_empty_and_unclosed_braces (values : gmap string Value) :
  (forall s body rest : string,
     _template_pattern s = Some (body, rest) <->
     s = "{" +:+ body +:+ "}" +:+ rest
     /\ body <> EmptyString /\ contains "}" body = false)
  /\ expand_template "{}" values ∅
     = (if decide ("self" ∈ dom values) then Raise TypeError else Ok "{}")
  /\ expand_template "a{b" values ∅
     = (if decide ("self" ∈ dom values) then Raise TypeError else Ok "a{b")
  /\ expand_template "{}" (kw [("self", Scalar "x")]) ∅ = Raise TypeError
  /\ expand_template "a{b" (kw [("self", Scalar "x")]) ∅ = Raise TypeError.
Proof.
  split; [apply _template_pattern_spec|].
  rewrite !expand_template_values.
  destruct (decide ("self" ∈ dom values));
    (split; [|split; [|split; reflexivity]]); try done;
    apply re_sub_no_block, search_block_false; reflexivity.
Qed.

(** ** Errors of the parser *)

Lemma split_length (c : ascii) (s : string) : (1 <= length (split c s))%nat.
Proof.
  induction s as [|c' s IH]; simpl; [lia|].
  destruct (Ascii.eqb c' c); simpl; [lia|].
  destruct (split c s); simpl; lia.
Qed.

(** A body with a bar that does not split into three parts cannot be
    unpacked into [(op, arg, vars_)]. *)
Lemma parse_expansion_unpack (body : string) :
  contains "|" body = true -> length (split "|" body) <> 3%nat ->
  parse_expansion body = Raise ValueError.
Proof.
  intros Hbar Hlen. unfold parse_expansion. rewrite Hbar.
  by destruct (split "|" body) as [|? [|? [|? [|? ?]]]].
Qed.

Lemma re_sub_block_Raise repl (lit body rest : string) (e : exn) :
  is_literal lit = true ->
  body <> EmptyString -> contains "}" body = false ->
  repl body = Raise e ->
  re_sub repl (lit +:+ "{" +:+ body +:+ "}" +:+ rest) = Raise e.
Proof.
  intros Hl Hne Hb Hrepl. unfold re_sub.
  by rewrite sub_items_literal, sub_items_block, Hrepl.
Qed.

(** C2. The code at the body [-join|&|a|b], which splits into four parts:
    the tuple assignment of [parse_expansion] fails and the error that
    leaves [expand] is a [ValueError], not a [TemplateSyntaxError]. *)
Theorem C2_wrong_part_count_is_ValueError (values : gmap string Value) :
  split "|" "-join|&|a|b" = ["-join"; "&"; "a"; "b"]
  /\ parse_expansion "-join|&|a|b" = Raise ValueError
  /\ Template.expand "{-join|&|a|b}" values = Raise ValueError
  /\ expand_template "{-join|&|a|b}" ∅ ∅ = Raise ValueError.
Proof.
  split; [reflexivity|]. split; [reflexivity|]. split; [|reflexivity].
  unfold Template.expand.
  change "{-join|&|a|b}"
    with (EmptyString +:+ "{" +:+ "-join|&|a|b" +:+ "}" +:+ EmptyString).
  by apply re_sub_block_Raise.
Qed.

(** C5. The code on variable tokens with an equals sign.  A token with
    exactly one equals sign declares the text before the sign as name and
    the text after it as default, and an empty default is a
    [TemplateSyntaxError] whose message shows the token.  A token with a
    further equals sign is not split at the first sign
    only: [var.split("=")] yields three parts or more, the assignment to
    [(varname, vardefault)] cannot unpack them, and a [ValueError] leaves
    the parser and the entry point, as for [a=b=c]. *)
Theorem C5_token_with_default (name default more : string) :
  contains "=" name = false -> contains "=" default = false ->
  parse_var (name +:+ "=" +:+ default) =
    (if String.eqb default EmptyString
     then Raise (TemplateSyntaxError
                   ("Invalid variable: " +:+ repr (name +:+ "=" +:+ default)))
     else if _varname_pattern name then Ok (name, Some default)
     else Raise (TemplateSyntaxError ("Invalid variable: " +:+ repr name)))
  /\ parse_var (name +:+ "=" +:+ default +:+ "=" +:+ more) = Raise ValueError
  /\ split "=" "a=b=c" = ["a"; "b"; "c"]
  /\ parse_expansion "a=b=c" = Raise ValueError
  /\ expand_template "{a=b=c}" ∅ ∅ = Raise ValueError.
Proof.
  intros Hn Hd. split; [|split; [|by repeat split]].
  - unfold parse_var.
    assert (contains "=" (name +:+ "=" +:+ default) = true) as ->
      by (rewrite contains_app; simpl; by rewrite orb_true_r).
    change ("=" +:+ default) with (String "=" default).
    rewrite split_app, (contains_false_split _ _ Hd) by done.
    destruct (String.eqb default EmptyString); [done|]. simpl.
    by destruct (_varname_pattern name).
  - unfold parse_var.
    assert (contains "=" (name +:+ "=" +:+ default +:+ "=" +:+ more) = true)
      as -> by (rewrite contains_app; simpl; by rewrite orb_true_r).
    change ("=" +:+ default +:+ "=" +:+ more)
      with (String "=" (default +:+ String "=" more)).
    rewrite !split_app by done.
    pose proof (split_length "=" more) as Hlen.
    destruct (split "=" more); [simpl in Hlen; lia|done].
Qed.

Lemma C5_token_with_default_witness :
  parse_var "foo=wilma" = Ok ("foo", Some "wilma")
  /\ parse_var "fred="
     = Raise (TemplateSyntaxError
                (String.append "Invalid variable: "
                   (String squote (String.append "fred=" (String squote EmptyString)))))
  /\ parse_var "a=b=c" = Raise ValueError
  /\ parse_var "a=b=c" <> Ok ("a", Some "b=c").
Proof.
  split; [|split; [|split]].
  - apply (proj1 (C5_token_with_default "foo" "wilma" EmptyString
                    eq_refl eq_refl)).
  - apply (proj1 (C5_token_with_default "fred" EmptyString EmptyString
                    eq_refl eq_refl)).
  - apply (proj1 (proj2 (C5_token_with_default "a" "b" "c" eq_refl eq_refl))).
  - discriminate.
Defined.

(** ** What the percent-encoder lets pass *)

Lemma quoter_safe (c : ascii) :
  quoter "/" c
  = if quote_safe c then String c EmptyString else String "%" (hex2 true c).
Proof. destruct c as [[] [] [] [] [] [] [] []]; reflexivity. Qed.

Lemma hex2_decode (c : ascii) : hex_decode (hex2 true c) = Some (ord c).
Proof. destruct c as [[] [] [] [] [] [] [] []]; reflexivity. Qed.

Lemma quote_app (s t : string) : quote (s +:+ t) = quote s +:+ quote t.
Proof.
  unfold quote. induction s as [|c s IH]; [done|].
  rewrite str_app_cons. simpl. by rewrite IH, str_app_assoc.
Qed.

(** C3, as it holds.  The percent-encoder keeps the keys of the mapping.
    A scalar is encoded character by character: letters, digits and the
    marks [_], [.], [-] and [/] pass unchanged, every other character,
    the tilde and the space among them, becomes a percent sign and the two
    upper-case hexadecimal digits of its code.  A sequence is encoded
    element by element, in the same order and of the same length. *)
Theorem C3_percent_encode (values : gmap string Value) :
  (forall k, percent_encode values !! k
             = percent_encode_value <$> values !! k)
  /\ (forall s, percent_encode_value (Scalar s) = Scalar (quote s))
  /\ (forall l, exists l',
        percent_encode_value (Sequence l) = Sequence l'
        /\ length l' = length l
        /\ forall i, l' !! i = quote <$> l !! i)
  /\ (forall s t, quote (s +:+ t) = quote s +:+ quote t)
  /\ (forall c,
        quote (String c EmptyString)
        = if quote_safe c then String c EmptyString
          else String "%" (hex2 true c))
  /\ (forall c, hex_decode (hex2 true c) = Some (ord c))
  /\ quote_safe "/" = true /\ quote_safe "~" = false
  /\ quote " " = "%20".
Proof.
  split; [apply percent_encode_lookup|]. split; [done|]. split.
  { intros l. exists (quote <$> l). split; [done|].
    split; [apply length_fmap|]. intros i. apply list_lookup_fmap. }
  split; [apply quote_app|]. split.
  { intros c. unfold quote. simpl. rewrite quoter_safe.
    by destruct (quote_safe c). }
  split; [apply hex2_decode|]. done.
Qed.

(** The slash is not escaped and the tilde is, against the RFC 3986 set. *)
Lemma C3_slash_and_tilde_counterexample :
  rfc3986_encode "/~" = "%2F~"
  /\ percent_encode (kw [("p", Scalar "/~")]) !! "p" = Some (Scalar "/%7E")
  /\ percent_encode_value (Scalar "/~") <> Scalar (rfc3986_encode "/~").
Proof. split; [reflexivity|]. split; [reflexivity|discriminate]. Qed.

(** ** The operators *)

Lemma parse_vars_wf (vars_ : list string) (d0 d : PyDict) :
  dict_wf d0 -> parse_vars vars_ d0 = Ok d ->
  dict_wf d
  /\ exists decls, parse_var_list vars_ = Ok decls
                   /\ dict_map d = declare (dict_map d0) decls.
Proof.
  intros Hwf Hd. pose proof (parse_vars_spec vars_ d0 Hwf) as H.
  destruct (parse_var_list vars_) as [decls|e|]; [|congruence|done].
  destruct H as (d' & Hd' & Hwf' & Hm).
  rewrite Hd in Hd'. injection Hd' as <-.
  split; [done|]. by exists decls.
Qed.

(** The dictionary that [parse_expansion] returns is well formed. *)
Lemma parse_expansion_wf (body : string) (op_arg : option (string * string))
    (variables : PyDict) :
  parse_expansion body = Ok (op_arg, variables) -> dict_wf variables.
Proof.
  unfold parse_expansion.
  destruct (if contains "|" body then _ else _) as [[oa vars_]|e|];
    simpl; [|done..].
  destruct (parse_vars (split "," vars_) PyDict_New) as [d| |] eqn:E;
    simpl; [|done..].
  intros [= <- <-]. by eapply parse_vars_wf; [apply dict_wf_New|].
Qed.

Lemma dict_items_functional (d : PyDict) (k : string) (v1 v2 : option string) :
  dict_wf d -> (k, v1) ∈ dict_items d -> (k, v2) ∈ dict_items d -> v1 = v2.
Proof.
  intros Hwf H1%elem_of_dict_items H2%elem_of_dict_items; [|done..].
  apply dict_map_lookup in H1, H2; [|done..]. congruence.
Qed.

Lemma omap_ext_elem {A B} (f g : A -> option B) (l : list A) :
  (forall x, x ∈ l -> f x = g x) -> omap f l = omap g l.
Proof.
  induction l as [|x l IH]; intros H; [done|]. cbn [omap list_omap].
  rewrite (H x) by left. rewrite IH; [done|]. intros y Hy. apply H. by right.
Qed.

Lemma get_insert_default (variables : PyDict) (values : gmap string Value)
    (k d : string) :
  dict_wf variables -> (k, Some d) ∈ dict_items variables ->
  values !! k = None ->
  forall k' d', (k', d') ∈ dict_items variables ->
    get (<[k := Scalar d]> values) k' (Scalar <$> d')
    = get values k' (Scalar <$> d').
Proof.
  intros Hwf Hk Habs k' d' Hk'. unfold get.
  destruct (decide (k = k')) as [<-|Hne].
  - rewrite lookup_insert_eq, Habs.
    by rewrite (dict_items_functional variables k d' (Some d)).
  - by rewrite lookup_insert_ne.
Qed.

Lemma parse_var_list_length (vars_ : list string)
    (decls : list (string * option string)) :
  parse_var_list vars_ = Ok decls -> length decls = length vars_.
Proof.
  revert decls. induction vars_ as [|var vars_ IH]; intros decls; simpl.
  - by intros [= <-].
  - destruct (parse_var var) as [decl| |]; simpl; [|done..].
    destruct (parse_var_list vars_) as [decls'| |]; simpl; [|done..].
    intros [= <-]. simpl. by rewrite (IH decls').
Qed.

(** The dictionary of the variable tokens of a block: it holds the
    declarations and has a first item. *)
Lemma parse_vars_declared (vars_ : string)
    (decls : list (string * option string)) :
  parse_var_list (split "," vars_) = Ok decls ->
  exists variables k default rest,
    parse_vars (split "," vars_) PyDict_New = Ok variables
    /\ dict_wf variables
    /\ dict_map variables = declare ∅ decls
    /\ dict_items variables = (k, default) :: rest.
Proof.
  intros Hdecls.
  pose proof (parse_vars_spec (split "," vars_) PyDict_New dict_wf_New) as H.
  rewrite Hdecls, dict_map_New in H. destruct H as (d & Hd & Hwf & Hm).
  pose proof (split_length "," vars_) as Hlen.
  rewrite <- (parse_var_list_length _ _ Hdecls) in Hlen.
  destruct decls as [|[k0 v0] decls]; [simpl in Hlen; lia|].
  assert (k0 ∈ dict_keys d) as Hk.
  { apply (elem_of_dict_keys_declared d ((k0, v0) :: decls)); [done..|]. left. }
  rewrite dict_keys_items in Hk.
  destruct (dict_items d) as [|[k default] rest] eqn:Hitems;
    [by apply elem_of_nil in Hk|].
  by exists d, k, default, rest.
Qed.

(** With [opt], [neg] and [listjoin] a variable that is absent from the
    values and declares a default is not treated as present with that
    default. *)
Lemma C4_default_ignored_counterexample :
  (Template.expand "{-opt|&|foo=wilma}" ∅ = Ok EmptyString
   /\ Template.expand "{-opt|&|foo}" (kw [("foo", Scalar "wilma")]) = Ok "&")
  /\ (Template.expand "{-neg|&|foo=wilma}" ∅ = Ok "&"
      /\ Template.expand "{-neg|&|foo}" (kw [("foo", Scalar "wilma")])
         = Ok EmptyString)
  /\ (Template.expand "{-listjoin|/|foo=wilma}" ∅ = Ok EmptyString
      /\ Template.expand "{-listjoin|/|foo}" (kw [("foo", Scalar "wilma")])
         = Ok "w/i/l/m/a").
Proof. repeat split; reflexivity. Qed.

Lemma _handle_match_operator (body op arg : string) (variables : PyDict)
    (values : gmap string Value)
    (operator : PyDict -> string -> gmap string Value -> result string) :
  parse_expansion body = Ok (Some (op, arg), variables) ->
  op <> EmptyString ->
  Template.getattr_operator op = Some operator ->
  Template._handle_match body values
  = (let! r := operator variables arg values in Ok (Some (Scalar r))).
Proof.
  intros Hparse Hop Hget. unfold Template._handle_match.
  rewrite Hparse. cbn [bind]. destruct op as [|c op]; [done|].
  by rewrite Hget.
Qed.

Lemma operator_join_spec (variables : PyDict) (arg : string)
    (values : gmap string Value) :
  Template.operator_join variables arg values
  = Ok (spec_join (dict_items variables) arg values).
Proof.
  unfold Template.operator_join, spec_join. do 2 f_equal.
  apply omap_ext_elem. by intros [k d] _.
Qed.

(** C6, as it holds.  [join] emits one pair [name=value] for every
    declared variable whose looked-up value is present, joined by the
    argument, in the order in which the dictionary of the declarations
    lists them (each declared name once, with its last default); the value
    is the entry in the encoded values, else the declared default.  When
    no name is declared twice the pairs are those of the declarations, in
    some order.  A variable is skipped only when it is absent from the
    values and declares no default; one that is present with the empty
    string yields [name=]. *)
Theorem C6_join_pairs (arg vars_ : string)
    (decls : list (string * option string)) (values : gmap string Value) :
  contains "|" arg = false -> contains "|" vars_ = false ->
  parse_var_list (split "," vars_) = Ok decls ->
  exists variables,
    parse_expansion ("-join|" +:+ arg +:+ "|" +:+ vars_)
    = Ok (Some ("join", arg), variables)
    /\ dict_items variables ≡ₚ map_to_list (declare ∅ decls)
    /\ Template._handle_match ("-join|" +:+ arg +:+ "|" +:+ vars_) values
       = Ok (Some (Scalar (join arg (omap (join_pair values)
                                      (dict_items variables)))))
    /\ (NoDup decls.*1 ->
        omap (join_pair values) (dict_items variables)
        ≡ₚ omap (join_pair values) decls)
    /\ (forall decl,
          join_pair values decl = None
          <-> values !! decl.1 = None /\ decl.2 = None)
    /\ (forall k d,
          values !! k = Some (Scalar EmptyString) ->
          join_pair values (k, d) = Some (k +:+ "=")).
Proof.
  intros Ha Hv Hdecls.
  pose proof (parse_expansion_operator "-join" arg vars_ eq_refl Ha Hv) as H.
  rewrite Hdecls in H. destruct H as (variables & Hparse & Hwf & Hm).
  change ("-join" +:+ "|" +:+ arg +:+ "|" +:+ vars_)
    with ("-join|" +:+ arg +:+ "|" +:+ vars_) in Hparse.
  exists variables. split; [done|].
  split; [by apply dict_items_declared|]. split; [|split; [|split]].
  - rewrite (_handle_match_operator _ _ _ _ _ Template.operator_join Hparse)
      by done.
    by rewrite operator_join_spec.
  - intros Hnd. by rewrite (dict_items_declared_NoDup variables decls).
  - intros [k d]. unfold join_pair, spec_lookup. simpl.
    destruct (values !! k); [by split; [|intros []]|].
    destruct d; simpl; by split; [|intros []].
  - intros k d Hk. unfold join_pair, spec_lookup. simpl. by rewrite Hk.
Qed.

Lemma C6_join_pairs_witness :
  exists variables,
    parse_expansion "-join|&|a,b,c=1" = Ok (Some ("join", "&"), variables)
    /\ dict_items variables
       ≡ₚ map_to_list (declare ∅ [("a", None); ("b", None); ("c", Some "1")])
    /\ Template._handle_match "-join|&|a,b,c=1" (kw [("a", Scalar EmptyString)])
       = Ok (Some (Scalar (join "&" (omap (join_pair (kw [("a", Scalar EmptyString)]))
                                         (dict_items variables))))).
Proof.
  destruct (C6_join_pairs "&" "a,b,c=1"
              [("a", None); ("b", None); ("c", Some "1")]
              (kw [("a", Scalar EmptyString)]) eq_refl eq_refl eq_refl)
    as (variables & Hparse & Hperm & Hmatch & _).
  exists variables. split; [exact Hparse|]. split; [exact Hperm|exact Hmatch].
Defined.

(** The pairs do not follow the order of the declarations: for the
    declarations [a,b,c] the pair of [c] precedes the pair of [b], as in
    the docstring of [Template]. *)
Lemma C6_declaration_order_counterexample :
  parse_var_list (split "," "a,b,c") = Ok [("a", None); ("b", None); ("c", None)]
  /\ spec_join [("a", None); ("b", None); ("c", None)] "&"
       (kw [("b", Scalar "2"); ("c", Scalar "3")]) = "b=2&c=3"
  /\ Template.expand "http://example.com/{p}?{-join|&|a,b,c}"
       (kw [("p", Scalar "bar"); ("b", Scalar "2"); ("c", Scalar "3")])
     = Ok "http://example.com/bar?c=3&b=2".
Proof. repeat split; reflexivity. Qed.

Lemma operator_opt_loop_spec (keys : list string) (arg : string)
    (values : gmap string Value) :
  Template.operator_opt_loop keys arg values
  = if existsb (fun k => opt_truthy (values !! k)) keys
    then arg else EmptyString.
Proof.
  induction keys as [|k keys IH]; [done|]. simpl. unfold get.
  destruct (values !! k) as [[s|[|x l]]|]; simpl; by rewrite ?IH.
Qed.

Lemma existsb_elem {A} (f : A -> bool) (l1 l2 : list A) :
  (forall x, x ∈ l1 <-> x ∈ l2) -> existsb f l1 = existsb f l2.
Proof.
  intros H. apply eq_true_iff_eq. rewrite !existsb_exists.
  split; intros (x & Hx%list_elem_of_In & Hf); exists x;
    (split; [apply list_elem_of_In, H|]); done.
Qed.

Lemma existsb_fmap {A B} (f : B -> bool) (g : A -> B) (l : list A) :
  existsb f (g <$> l) = existsb (fun x => f (g x)) l.
Proof. induction l as [|x l IH]; [done|]. cbn. by rewrite <- IH. Qed.

(** C4, as it holds.  The six operators on the block of an argument and of
    variable tokens that parse, as the callback of [re.sub] runs them on
    the encoded values.  For [join], [prefix] and [append] the looked-up
    value of a declared variable is its entry in the values when there is
    one and else its declared default, so that a variable that is absent
    and declares a default gives the same result as the variable present
    with that default as its value.  For [opt], [neg] and [listjoin] the
    looked-up value is the entry in the values alone: an absent variable
    counts as absent ([opt], [neg]) or as the empty sequence ([listjoin]),
    and whatever defaults are declared for the same names, the result is
    the same. *)
Theorem C4_declared_default (arg vars_ : string)
    (decls : list (string * option string)) (values : gmap string Value) :
  contains "|" arg = false -> contains "|" vars_ = false ->
  parse_var_list (split "," vars_) = Ok decls ->
  exists variables k default rest,
    dict_items variables = (k, default) :: rest
    /\ dict_items variables ≡ₚ map_to_list (declare ∅ decls)
    /\ (forall op,
          contains "|" op = false ->
          parse_expansion ("-" +:+ op +:+ "|" +:+ arg +:+ "|" +:+ vars_)
          = Ok (Some (op, arg), variables))
    /\ Template._handle_match ("-join|" +:+ arg +:+ "|" +:+ vars_) values
       = Ok (Some (Scalar
               (join arg
                  (omap (fun decl =>
                           match spec_lookup values decl.1 decl.2 with
                           | Some v => Some (decl.1 +:+ "=" +:+ str v)
                           | None => None
                           end)
                        (dict_items variables)))))
    /\ Template._handle_match ("-prefix|" +:+ arg +:+ "|" +:+ vars_) values
       = match spec_lookup values k default with
         | Some (Scalar s) =>
             Ok (Some (Scalar (if String.eqb s EmptyString then EmptyString
                               else arg +:+ s)))
         | Some (Sequence []) => Ok (Some (Scalar EmptyString))
         | Some (Sequence (_ :: _)) => Raise TypeError
         | None => Ok (Some (Scalar EmptyString))
         end
    /\ Template._handle_match ("-append|" +:+ arg +:+ "|" +:+ vars_) values
       = match spec_lookup values k default with
         | Some (Scalar s) =>
             Ok (Some (Scalar (if String.eqb s EmptyString then EmptyString
                               else s +:+ arg)))
         | Some (Sequence []) => Ok (Some (Scalar EmptyString))
         | Some (Sequence (_ :: _)) => Raise TypeError
         | None => Ok (Some (Scalar EmptyString))
         end
    /\ Template._handle_match ("-opt|" +:+ arg +:+ "|" +:+ vars_) values
       = Ok (Some (Scalar
               (if existsb (fun decl => opt_truthy (values !! decl.1)) decls
                then arg else EmptyString)))
    /\ Template._handle_match ("-neg|" +:+ arg +:+ "|" +:+ vars_) values
       = Ok (Some (Scalar
               (if existsb (fun decl => opt_truthy (values !! decl.1)) decls
                then EmptyString else arg)))
    /\ Template._handle_match ("-listjoin|" +:+ arg +:+ "|" +:+ vars_) values
       = Ok (Some (Scalar
               (join arg
                  match values !! k with
                  | Some (Sequence l) => l
                  | Some (Scalar s) => chars s
                  | None => []
                  end)))
    /\ (forall k' d,
          (k', Some d) ∈ dict_items variables -> values !! k' = None ->
          Template.operator_join variables arg values
          = Template.operator_join variables arg (<[k' := Scalar d]> values)
          /\ Template.operator_prefix variables arg values
             = Template.operator_prefix variables arg
                 (<[k' := Scalar d]> values)
          /\ Template.operator_append variables arg values
             = Template.operator_append variables arg
                 (<[k' := Scalar d]> values))
    /\ (forall variables' : PyDict,
          dict_keys variables' = dict_keys variables ->
          Template.operator_opt variables' arg values
          = Template.operator_opt variables arg values
          /\ Template.operator_neg variables' arg values
             = Template.operator_neg variables arg values
          /\ Template.operator_listjoin variables' arg values
             = Template.operator_listjoin variables arg values).
Proof.
  intros Ha Hv Hdecls.
  destruct (parse_vars_declared vars_ decls Hdecls)
    as (variables & k & default & rest & Hvars & Hwf & Hm & Hitems).
  assert (forall op,
            contains "|" op = false ->
            parse_expansion ("-" +:+ op +:+ "|" +:+ arg +:+ "|" +:+ vars_)
            = Ok (Some (op, arg), variables)) as Hparse.
  { intros op Hop.
    change ("-" +:+ op +:+ "|" +:+ arg +:+ "|" +:+ vars_)
      with (String "-" op +:+ "|" +:+ arg +:+ "|" +:+ vars_).
    rewrite parse_expansion_operator_eq by done. by rewrite Hvars. }
  assert (existsb (fun key => opt_truthy (values !! key)) (dict_keys variables)
          = existsb (fun decl => opt_truthy (values !! decl.1)) decls) as Hex.
  { rewrite <- (existsb_fmap (fun key => opt_truthy (values !! key)) fst decls).
    apply existsb_elem. intros key. by apply elem_of_dict_keys_declared. }
  exists variables, k, default, rest.
  split; [done|]. split; [by apply dict_items_declared|]. split; [done|].
  split; [|split; [|split; [|split; [|split; [|split; [|split]]]]]].
  - change ("-join|" +:+ arg +:+ "|" +:+ vars_)
      with ("-" +:+ "join" +:+ "|" +:+ arg +:+ "|" +:+ vars_).
    rewrite (_handle_match_operator _ "join" arg variables values
               Template.operator_join (Hparse "join" eq_refl)) by done.
    by rewrite operator_join_spec.
  - change ("-prefix|" +:+ arg +:+ "|" +:+ vars_)
      with ("-" +:+ "prefix" +:+ "|" +:+ arg +:+ "|" +:+ vars_).
    rewrite (_handle_match_operator _ "prefix" arg variables values
               Template.operator_prefix (Hparse "prefix" eq_refl)) by done.
    unfold Template.operator_prefix. rewrite Hitems.
    unfold get, spec_lookup.
    destruct (values !! k) as [[[|c s]|[|x l]]|]; try done.
    by destruct default as [[|c d]|].
  - change ("-append|" +:+ arg +:+ "|" +:+ vars_)
      with ("-" +:+ "append" +:+ "|" +:+ arg +:+ "|" +:+ vars_).
    rewrite (_handle_match_operator _ "append" arg variables values
               Template.operator_append (Hparse "append" eq_refl)) by done.
    unfold Template.operator_append. rewrite Hitems.
    unfold get, spec_lookup.
    destruct (values !! k) as [[[|c s]|[|x l]]|]; try done.
    by destruct default as [[|c d]|].
  - change ("-opt|" +:+ arg +:+ "|" +:+ vars_)
      with ("-" +:+ "opt" +:+ "|" +:+ arg +:+ "|" +:+ vars_).
    rewrite (_handle_match_operator _ "opt" arg variables values
               Template.operator_opt (Hparse "opt" eq_refl)) by done.
    unfold Template.operator_opt. cbn [bind].
    by rewrite operator_opt_loop_spec, Hex.
  - change ("-neg|" +:+ arg +:+ "|" +:+ vars_)
      with ("-" +:+ "neg" +:+ "|" +:+ arg +:+ "|" +:+ vars_).
    rewrite (_handle_match_operator _ "neg" arg variables values
               Template.operator_neg (Hparse "neg" eq_refl)) by done.
    unfold Template.operator_neg, Template.operator_opt. cbn [bind].
    rewrite operator_opt_loop_spec, Hex.
    destruct (existsb _ decls); [by destruct arg|done].
  - change ("-listjoin|" +:+ arg +:+ "|" +:+ vars_)
      with ("-" +:+ "listjoin" +:+ "|" +:+ arg +:+ "|" +:+ vars_).
    rewrite (_handle_match_operator _ "listjoin" arg variables values
               Template.operator_listjoin (Hparse "listjoin" eq_refl)) by done.
    unfold Template.operator_listjoin. rewrite dict_keys_items, Hitems.
    cbn [fmap list_fmap fst]. unfold get_value.
    by destruct (values !! k) as [[s|l]|].
  - intros k' d Hk Habs.
    pose proof (get_insert_default variables values k' d Hwf Hk Habs) as Hget.
    split; [|split].
    + unfold Template.operator_join. do 2 f_equal.
      apply omap_ext_elem. intros [k0 d0] Hin. by rewrite Hget.
    + unfold Template.operator_prefix. rewrite Hitems.
      rewrite Hget; [done|]. rewrite Hitems. left.
    + unfold Template.operator_append. rewrite Hitems.
      rewrite Hget; [done|]. rewrite Hitems. left.
  - intros variables' Hkeys.
    unfold Template.operator_neg, Template.operator_opt,
      Template.operator_listjoin.
    by rewrite Hkeys.
Qed.

Lemma C4_declared_default_witness :
  Template._handle_match "-prefix|&|foo=wilma" ∅ = Ok (Some (Scalar "&wilma"))
  /\ Template._handle_match "-opt|&|foo=wilma" ∅
     = Ok (Some (Scalar EmptyString))
  /\ Template._handle_match "-listjoin|/|foo=wilma" ∅
     = Ok (Some (Scalar EmptyString)).
Proof.
  destruct (C4_declared_default "&" "foo=wilma" [("foo", Some "wilma")] ∅
              eq_refl eq_refl eq_refl)
    as (variables & k & default & rest & Hitems & _ & Hparse & _ & Hprefix
        & _ & Hopt & _).
  split; [|split; [exact Hopt|reflexivity]].
  pose proof (Hparse "prefix" eq_refl) as Hp.
  change (parse_expansion "-prefix|&|foo=wilma"
          = Ok (Some ("prefix", "&"), variables)) in Hp.
  assert (parse_expansion "-prefix|&|foo=wilma"
          = Ok (Some ("prefix", "&"), foo_wilma)) as Hp' by reflexivity.
  rewrite Hp' in Hp. injection Hp as <-.
  assert (dict_items foo_wilma = [("foo", Some "wilma")]) as Hi by reflexivity.
  rewrite Hi in Hitems. injection Hitems as <- <- <-.
  exact Hprefix.
Defined.

(** C7, as it holds.  [opt] returns its argument exactly when some
    declared variable has an entry in the encoded values that is not an
    empty sequence, and the empty text otherwise: the value that [opt]
    looks up is [values.get(k, None)], without the declared default.  In
    particular an entry that is the empty string makes [opt] return its
    argument, and an entry that is an empty sequence does not. *)
Theorem C7_opt_truthiness (arg vars_ : string)
    (decls : list (string * option string)) (values : gmap string Value) :
  contains "|" arg = false -> contains "|" vars_ = false ->
  parse_var_list (split "," vars_) = Ok decls ->
  Template._handle_match ("-opt|" +:+ arg +:+ "|" +:+ vars_) values
  = Ok (Some (Scalar
         (if existsb (fun decl => opt_truthy (values !! decl.1)) decls
          then arg else EmptyString)))
  /\ opt_truthy (Some (Scalar EmptyString)) = true
  /\ opt_truthy (Some (Sequence [])) = false
  /\ forall v, opt_truthy (Some v) = false -> v = Sequence [].
Proof.
  intros Ha Hv Hdecls.
  pose proof (parse_expansion_operator "-opt" arg vars_ eq_refl Ha Hv) as H.
  rewrite Hdecls in H. destruct H as (variables & Hparse & Hwf & Hm).
  change ("-opt" +:+ "|" +:+ arg +:+ "|" +:+ vars_)
    with ("-opt|" +:+ arg +:+ "|" +:+ vars_) in Hparse.
  split; [|split; [done|split; [done|]]].
  - rewrite (_handle_match_operator _ _ _ _ _ Template.operator_opt Hparse)
      by done.
    unfold Template.operator_opt. cbn [bind].
    rewrite operator_opt_loop_spec. do 3 f_equal.
    rewrite <- (existsb_fmap (fun k => opt_truthy (values !! k)) fst decls).
    rewrite (existsb_elem _ (dict_keys variables) decls.*1); [done|].
    intros k. by apply elem_of_dict_keys_declared.
  - by intros [s|[|x l]].
Qed.

Lemma C7_opt_truthiness_witness :
  Template._handle_match "-opt|&|foo,bar" (kw [("bar", Scalar EmptyString)])
  = Ok (Some (Scalar "&"))
  /\ Template._handle_match "-opt|&|foo,bar" (kw [("bar", Sequence [])])
     = Ok (Some (Scalar EmptyString)).
Proof.
  split.
  - apply (proj1 (C7_opt_truthiness "&" "foo,bar"
                    [("foo", None); ("bar", None)]
                    (kw [("bar", Scalar EmptyString)])
                    eq_refl eq_refl eq_refl)).
  - apply (proj1 (C7_opt_truthiness "&" "foo,bar"
                    [("foo", None); ("bar", None)]
                    (kw [("bar", Sequence [])])
                    eq_refl eq_refl eq_refl)).
Defined.

(** With the looked-up value of the specification, the entry in the
    values and else the declared default, the variable of the block
    [-opt|&|foo=wilma] is present for the empty mapping and [opt] would
    return its argument; the code returns the empty text. *)
Lemma C7_declared_default_counterexample :
  parse_var_list (split "," "foo=wilma") = Ok [("foo", Some "wilma")]
  /\ existsb (fun decl : string * option string =>
                opt_truthy (spec_lookup ∅ decl.1 decl.2))
       [("foo", Some "wilma")] = true
  /\ Template._handle_match "-opt|&|foo=wilma" ∅
     = Ok (Some (Scalar EmptyString))
  /\ expand_template "{-opt|&|foo=wilma}" ∅ ∅ = Ok EmptyString
  /\ expand_template "{-opt|&|foo=wilma}" ∅ ∅ <> Ok "&".
Proof. repeat split; (reflexivity || discriminate). Qed.

(** C8. [neg] returns the empty text if [opt], on the same variables,
    argument and values, returns a text that is not empty, and its argument
    otherwise; so does the block [-neg|arg|vars] with respect to the block
    [-opt|arg|vars], and both fail alike when a variable token is in
    error. *)
Theorem C8_neg_negates_opt (variables : PyDict) (arg vars_ : string)
    (values : gmap string Value) :
  (exists r : string,
     Template.operator_opt variables arg values = Ok r
     /\ Template.operator_neg variables arg values
        = Ok (if String.eqb r EmptyString then arg else EmptyString))
  /\ (contains "|" arg = false -> contains "|" vars_ = false ->
      match Template._handle_match ("-opt|" +:+ arg +:+ "|" +:+ vars_) values
      with
      | Ok (Some (Scalar r)) =>
          Template._handle_match ("-neg|" +:+ arg +:+ "|" +:+ vars_) values
          = Ok (Some (Scalar
                  (if String.eqb r EmptyString then arg else EmptyString)))
      | Ok _ => False
      | Raise e =>
          Template._handle_match ("-neg|" +:+ arg +:+ "|" +:+ vars_) values
          = Raise e
      | Diverge => False
      end).
Proof.
  split.
  - eexists. split; [reflexivity|].
    unfold Template.operator_neg, Template.operator_opt. simpl.
    by destruct (String.eqb _ _).
  - intros Ha Hv.
    pose proof (parse_expansion_operator_eq "-opt" arg vars_ eq_refl Ha Hv)
      as Ho.
    pose proof (parse_expansion_operator_eq "-neg" arg vars_ eq_refl Ha Hv)
      as Hn.
    change ("-opt" +:+ "|" +:+ arg +:+ "|" +:+ vars_)
      with ("-opt|" +:+ arg +:+ "|" +:+ vars_) in Ho.
    change ("-neg" +:+ "|" +:+ arg +:+ "|" +:+ vars_)
      with ("-neg|" +:+ arg +:+ "|" +:+ vars_) in Hn.
    pose proof (parse_expansion_no_Diverge
                  ("-opt|" +:+ arg +:+ "|" +:+ vars_)) as Hnd.
    unfold Template._handle_match. rewrite Ho, Hn in *.
    destruct (parse_vars (split "," vars_) PyDict_New) as [d|e|];
      [|done..].
    simpl. unfold Template.operator_neg, Template.operator_opt. simpl.
    by destruct (String.eqb _ _).
Qed.

Lemma C8_neg_negates_opt_witness :
  Template._handle_match "-opt|&|foo,bar" (kw [("bar", Sequence [])])
  = Ok (Some (Scalar EmptyString))
  /\ Template._handle_match "-neg|&|foo,bar" (kw [("bar", Sequence [])])
     = Ok (Some (Scalar "&")).
Proof.
  split; [reflexivity|].
  apply (proj2 (C8_neg_negates_opt PyDict_New "&" "foo,bar"
                  (kw [("bar", Sequence [])])) eq_refl eq_refl).
Defined.

(** ** Every expansion returns or raises *)

Lemma operator_no_Diverge (op : string)
    (operator : PyDict -> string -> gmap string Value -> result string)
    (variables : PyDict) (arg : string) (values : gmap string Value) :
  Template.getattr_operator op = Some operator ->
  operator variables arg values <> Diverge.
Proof.
  unfold Template.getattr_operator.
  repeat (destruct (String.eqb op _); [intros [= <-]|]); [..|done].
  - done.
  - unfold Template.operator_neg, Template.operator_opt. simpl.
    by destruct (negb _).
  - unfold Template.operator_listjoin.
    destruct (dict_keys variables); [done|]. by destruct (get_value _ _ _).
  - done.
  - unfold Template.operator_prefix.
    destruct (dict_items variables) as [|[k d] ?]; [done|].
    destruct (get _ _ _) as [[?|?]|]; [..|done];
      by destruct (_ <? _)%nat.
  - unfold Template.operator_append.
    destruct (dict_items variables) as [|[k d] ?]; [done|].
    destruct (get _ _ _) as [[?|?]|]; [..|done];
      by destruct (_ <? _)%nat.
Qed.

Lemma _handle_match_no_Diverge (group1 : string) (values : gmap string Value) :
  Template._handle_match group1 values <> Diverge.
Proof.
  unfold Template._handle_match.
  pose proof (parse_expansion_no_Diverge group1) as Hp.
  destruct (parse_expansion group1) as [[op_arg variables]|e|];
    simpl; [|done..].
  assert ((if dict_len variables =? 1
           then match dict_items variables with
                | [] => Raise IndexError
                | (key, default) :: _ =>
                    Ok (get values key (Scalar <$> default))
                end
           else Raise AssertionError) <> (Diverge : result (option Value)))
    as Hplain.
  { destruct (_ =? _); [|done]. by destruct (dict_items variables) as [|[? ?] ?]. }
  destruct op_arg as [[[|c op] arg]|]; [done| |done].
  destruct (Template.getattr_operator (String c op)) as [operator|] eqn:Hop;
    [|done].
  pose proof (operator_no_Diverge _ _ variables arg values Hop).
  by destruct (operator variables arg values).
Qed.

Lemma sub_items_no_Diverge repl (s : string) :
  (forall body, repl body <> Diverge) ->
  forall skip, sub_items repl s skip <> Diverge.
Proof.
  intros Hrepl. induction s as [|c s IH]; intros skip; [done|].
  cbn [sub_items]. destruct skip as [|skip]; [|apply IH].
  destruct (_template_pattern (String c s)) as [[body rest]|].
  - pose proof (Hrepl body). destruct (repl body) as [item| |]; [|done..].
    simpl. pose proof (IH (String.length body + 1)%nat).
    by destruct (sub_items repl s _).
  - pose proof (IH 0%nat). by destruct (sub_items repl s 0).
Qed.

Lemma join_items_no_Diverge (items : list Value) : join_items items <> Diverge.
Proof.
  induction items as [|[s|l] items IH]; [done| |done].
  simpl. by destruct (join_items items).
Qed.

(** The budget of the hash-table model is never exhausted: [expand] returns
    a text or raises an exception, for every template and mapping. *)
Theorem expand_no_Diverge (template : string) (values : gmap string Value) :
  Template.expand template values <> Diverge.
Proof.
  unfold Template.expand, re_sub.
  pose proof (sub_items_no_Diverge
                (fun group1 =>
                   Template._handle_match group1 (percent_encode values))
                template
                (fun body => _handle_match_no_Diverge body _) 0%nat) as Hs.
  destruct (sub_items _ template 0) as [items| |]; [|done..].
  apply join_items_no_Diverge.
Qed.

(** The function [expand_template] is [Template.expand] on the merged
    mapping, unless a key is the name of the method's first parameter. *)
Lemma expand_template_expand (template : string)
    (values kwargs : gmap string Value) :
  "self" ∉ dom (kwargs ∪ values) ->
  expand_template template values kwargs
  = Template.expand template (kwargs ∪ values).
Proof. intros Hself. unfold expand_template. by rewrite decide_False. Qed.

(** ** The doctests of the module *)

Example doctest_module_1 :
  expand_template "http://example.com/{foo}" (kw [("foo", Scalar "it worked")]) ∅
  = Ok "http://example.com/it%20worked".
Proof. reflexivity. Qed.

Example doctest_module_2 :
  expand_template "http://example.org/{a}{b}/{a_b}"
    (kw [("a", Scalar "foo"); ("b", Scalar "bar"); ("a_b", Scalar "baz")]) ∅
  = Ok "http://example.org/foobar/baz".
Proof. reflexivity. Qed.

Example doctest_module_3 :
  expand_template "http://example.org/?q={a}" ∅ (kw [("a", Scalar "foo")])
  = Ok "http://example.org/?q=foo".
Proof. reflexivity. Qed.

Example doctest_expand_template :
  expand_template "http://{host}/{-listjoin|/|path}" ∅
    (kw [("host", Scalar "example.com"); ("path", Sequence ["a"; "b"])])
  = Ok "http://example.com/a/b".
Proof. reflexivity. Qed.

Example doctest_Template_1 :
  Template.expand "http://example.com/{p}?{-join|&|a,b,c}"
    (kw [("p", Scalar "foo"); ("a", Scalar "1")])
  = Ok "http://example.com/foo?a=1".
Proof. reflexivity. Qed.

Example doctest_Template_2 :
  Template.expand "http://example.com/{p}?{-join|&|a,b,c}"
    (kw [("p", Scalar "bar"); ("b", Scalar "2"); ("c", Scalar "3")])
  = Ok "http://example.com/bar?c=3&b=2".
Proof. reflexivity. Qed.

(** [{'a': None, 'c': '1', 'b': None}]: the dictionary lists [c] before
    [b]. *)
Example doctest_parse_expansion_1 :
  (let! (op_arg, variables) := parse_expansion "-join|&|a,b,c=1" in
   Ok (op_arg, dict_items variables))
  = Ok (Some ("join", "&"), [("a", None); ("c", Some "1"); ("b", None)]).
Proof. reflexivity. Qed.

Example doctest_parse_expansion_2 :
  (let! (op_arg, variables) := parse_expansion "c=1" in
   Ok (op_arg, dict_items variables))
  = Ok (None, [("c", Some "1")]).
Proof. reflexivity. Qed.

Example doctest_percent_encode :
  percent_encode (kw [("company", Scalar "AT&T")])
  = kw [("company", Scalar "AT%26T")]
  /\ percent_encode (kw [("companies", Sequence ["Yahoo!"; "AT&T"])])
     = kw [("companies", Sequence ["Yahoo%21"; "AT%26T"])].
Proof. split; reflexivity. Qed.

Example doctest_test_pre :
  expand_template "{foo}" ∅ ∅ = Ok EmptyString
  /\ expand_template "{foo}" (kw [("foo", Scalar "barney")]) ∅ = Ok "barney"
  /\ expand_template "{foo=wilma}" ∅ ∅ = Ok "wilma"
  /\ expand_template "{foo=wilma}" (kw [("foo", Scalar "barney")]) ∅
     = Ok "barney"
  /\ expand_template "{-prefix|&|foo}" ∅ ∅ = Ok EmptyString
  /\ expand_template "{-prefix|&|foo=wilma}" ∅ ∅ = Ok "&wilma"
  /\ expand_template "{-prefix||foo=wilma}" ∅ ∅ = Ok "wilma"
  /\ expand_template "{-prefix|&|foo=wilma}" (kw [("foo", Scalar "barney")]) ∅
     = Ok "&barney"
  /\ expand_template "{-append|/|foo}" ∅ ∅ = Ok EmptyString
  /\ expand_template "{-append|#|foo=wilma}" ∅ ∅ = Ok "wilma#"
  /\ expand_template "{-append|&?|foo=wilma}" (kw [("foo", Scalar "barney")]) ∅
     = Ok "barney&?"
  /\ expand_template "{-join|/|foo}" ∅ ∅ = Ok EmptyString
  /\ expand_template "{-join|/|foo,bar}" ∅ ∅ = Ok EmptyString
  /\ expand_template "{-join|&|q,num}" ∅ ∅ = Ok EmptyString
  /\ expand_template "{-join|#|foo=wilma}" ∅ ∅ = Ok "foo=wilma"
  /\ expand_template "{-join|#|foo=wilma,bar}" ∅ ∅ = Ok "foo=wilma"
  /\ expand_template "{-join|&?|foo=wilma}" (kw [("foo", Scalar "barney")]) ∅
     = Ok "foo=barney"
  /\ expand_template "{-listjoin|/|foo}" ∅ ∅ = Ok EmptyString
  /\ expand_template "{-listjoin|/|foo}" (kw [("foo", Sequence ["a"; "b"])]) ∅
     = Ok "a/b"
  /\ expand_template "{-listjoin||foo}" (kw [("foo", Sequence ["a"; "b"])]) ∅
     = Ok "ab"
  /\ expand_template "{-listjoin|/|foo}" (kw [("foo", Sequence ["a"])]) ∅
     = Ok "a"
  /\ expand_template "{-listjoin|/|foo}" (kw [("foo", Sequence [])]) ∅
     = Ok EmptyString
  /\ expand_template "{-opt|&|foo}" ∅ ∅ = Ok EmptyString
  /\ expand_template "{-opt|&|foo}" (kw [("foo", Scalar "fred")]) ∅ = Ok "&"
  /\ expand_template "{-opt|&|foo}" (kw [("foo", Sequence [])]) ∅
     = Ok EmptyString
  /\ expand_template "{-opt|&|foo}" (kw [("foo", Sequence ["a"])]) ∅ = Ok "&"
  /\ expand_template "{-opt|&|foo,bar}" (kw [("foo", Sequence ["a"])]) ∅
     = Ok "&"
  /\ expand_template "{-opt|&|foo,bar}" (kw [("bar", Scalar "a")]) ∅ = Ok "&"
  /\ expand_template "{-opt|&|foo,bar}" ∅ ∅ = Ok EmptyString
  /\ expand_template "{-neg|&|foo}" ∅ ∅ = Ok "&"
  /\ expand_template "{-neg|&|foo}" (kw [("foo", Scalar "fred")]) ∅
     = Ok EmptyString
  /\ expand_template "{-neg|&|foo}" (kw [("foo", Sequence [])]) ∅ = Ok "&"
  /\ expand_template "{-neg|&|foo}" (kw [("foo", Sequence ["a"])]) ∅
     = Ok EmptyString
  /\ expand_template "{-neg|&|foo,bar}" (kw [("bar", Scalar "a")]) ∅
     = Ok EmptyString
  /\ expand_template "{-neg|&|foo,bar}" (kw [("bar", Sequence [])]) ∅ = Ok "&"
  /\ expand_template "{foo}" (kw [("foo", Scalar " ")]) ∅ = Ok "%20"
  /\ expand_template "{-listjoin|&|foo}"
       (kw [("foo", Sequence ["&"; "&"; "|"; "_"])]) ∅
     = Ok "%26&%26&%7C&_"
  /\ expand_template "{-join|#|foo=wilma,bar=barney}" ∅ ∅
     = Ok "foo=wilma#bar=barney".
Proof. repeat split; reflexivity. Qed.

Example doctest_syntax_errors :
  expand_template "{fred=}" ∅ ∅
  = Raise (TemplateSyntaxError ("Invalid variable: " +:+ repr "fred="))
  /\ expand_template "{f:}" ∅ ∅
     = Raise (TemplateSyntaxError ("Invalid variable: " +:+ repr "f:"))
  /\ expand_template "{f<}" ∅ ∅
     = Raise (TemplateSyntaxError ("Invalid variable: " +:+ repr "f<"))
  /\ expand_template "{<:}" ∅ ∅
     = Raise (TemplateSyntaxError ("Invalid variable: " +:+ repr "<:"))
  /\ expand_template "{<:fred,barney}" ∅ ∅
     = Raise (TemplateSyntaxError ("Invalid variable: " +:+ repr "<:fred"))
  /\ expand_template "{>:}" ∅ ∅
     = Raise (TemplateSyntaxError ("Invalid variable: " +:+ repr ">:"))
  /\ expand_template "{>:fred,barney}" ∅ ∅
     = Raise (TemplateSyntaxError ("Invalid variable: " +:+ repr ">:fred"))
  /\ repr "fred=" = String squote ("fred=" +:+ String squote EmptyString).
Proof. repeat split; reflexivity. Qed.

(** The hash values are those of a Python 2.7 with 64-bit [long]:
    [hash('foo')] is [-4177197833195190597]. *)
Example string_hash_values :
  string_hash "foo" - 2 ^ 64 = -4177197833195190597
  /\ string_hash "bar" = 327024216814240868
  /\ string_hash "a" = 12416037344.
Proof. repeat split; reflexivity. Qed.

(** * Further properties of the module *)

(** ** Blocks with one variable token *)

Lemma quote_empty (s : string) : quote s = EmptyString <-> s = EmptyString.
Proof.
  split; [|by intros ->]. destruct s as [|c s]; [done|].
  unfold quote. simpl. unfold quoter.
  by destruct (contains c always_safe || contains c "/").
Qed.

(** What a token that parses declares: a name the pattern accepts and, if
    any, a default that is not empty. *)
Lemma parse_var_Ok (var name : string) (default : option string) :
  parse_var var = Ok (name, default) ->
  _varname_pattern name = true
  /\ (forall d, default = Some d -> d <> EmptyString).
Proof.
  unfold parse_var.
  destruct (contains "=" var).
  - destruct (split "=" var) as [|n [|d [|? ?]]]; try done.
    destruct (String.eqb_spec d EmptyString) as [->|Hd]; [done|]. simpl.
    destruct (_varname_pattern n) eqn:Hn; [|done].
    intros [= <- <-]. split; [done|]. by intros ? [= <-].
  - simpl. destruct (_varname_pattern var) eqn:Hn; [|done].
    intros [= <- <-]. done.
Qed.

Lemma parse_expansion_one_plain (var : string) (decl : string * option string) :
  contains "|" var = false -> contains "," var = false ->
  parse_var var = Ok decl ->
  exists d,
    parse_expansion var = Ok (None, d)
    /\ dict_items d = [decl] /\ dict_keys d = [decl.1] /\ dict_len d = 1.
Proof.
  intros Hbar Hcomma Hvar.
  pose proof (parse_expansion_plain var Hbar) as H.
  rewrite (contains_false_split _ _ Hcomma) in H. simpl in H.
  rewrite Hvar in H. simpl in H. destruct H as (d & Hp & Hwf & Hm).
  exists d. split; [done|]. by apply dict_items_declared_single.
Qed.

Lemma parse_expansion_one_operator (optoken arg var : string)
    (decl : string * option string) :
  contains "|" optoken = false -> contains "|" arg = false ->
  contains "|" var = false -> contains "," var = false ->
  parse_var var = Ok decl ->
  exists d,
    parse_expansion (optoken +:+ "|" +:+ arg +:+ "|" +:+ var)
    = Ok (Some (slice_from_1 optoken, arg), d)
    /\ dict_items d = [decl] /\ dict_keys d = [decl.1] /\ dict_len d = 1.
Proof.
  intros Ho Ha Hbar Hcomma Hvar.
  pose proof (parse_expansion_operator optoken arg var Ho Ha Hbar) as H.
  rewrite (contains_false_split _ _ Hcomma) in H. simpl in H.
  rewrite Hvar in H. simpl in H. destruct H as (d & Hp & Hwf & Hm).
  exists d. split; [done|]. by apply dict_items_declared_single.
Qed.

(** A template that is one block. *)
Lemma expand_block (body r : string) (item : option Value)
    (values : gmap string Value) :
  body <> EmptyString -> contains "}" body = false ->
  Template._handle_match body (percent_encode values) = Ok item ->
  item_text item = Some r ->
  Template.expand ("{" +:+ body +:+ "}") values = Ok r.
Proof.
  intros Hne Hb Hitem Hr. unfold Template.expand.
  change ("{" +:+ body +:+ "}")
    with (EmptyString +:+ "{" +:+ body +:+ "}" +:+ EmptyString).
  rewrite (re_sub_block _ EmptyString body EmptyString r EmptyString item);
    try done.
  by rewrite str_app_nil_l, str_app_nil_r.
Qed.

Lemma expand_block_Raise (body : string) (e : exn)
    (values : gmap string Value) :
  body <> EmptyString -> contains "}" body = false ->
  Template._handle_match body (percent_encode values) = Raise e ->
  Template.expand ("{" +:+ body +:+ "}") values = Raise e.
Proof.
  intros Hne Hb Hitem. unfold Template.expand.
  change ("{" +:+ body +:+ "}")
    with (EmptyString +:+ "{" +:+ body +:+ "}" +:+ EmptyString).
  by apply re_sub_block_Raise.
Qed.

Lemma expand_block_list (body : string) (l : list string)
    (values : gmap string Value) :
  body <> EmptyString -> contains "}" body = false ->
  Template._handle_match body (percent_encode values)
  = Ok (Some (Sequence l)) ->
  Template.expand ("{" +:+ body +:+ "}") values = Raise TypeError.
Proof.
  intros Hne Hb Hitem. unfold Template.expand, re_sub.
  change ("{" +:+ body +:+ "}")
    with (EmptyString +:+ "{" +:+ body +:+ "}" +:+ EmptyString).
  by rewrite str_app_nil_l, sub_items_block, Hitem.
Qed.

Lemma operator_block_body (op arg var : string) :
  contains "}" op = false -> contains "}" arg = false ->
  contains "}" var = false ->
  op +:+ "|" +:+ arg +:+ "|" +:+ var <> EmptyString
  /\ contains "}" (op +:+ "|" +:+ arg +:+ "|" +:+ var) = false.
Proof.
  intros Ho Ha Hv. split.
  - destruct op; [by rewrite str_app_nil_l|by rewrite str_app_cons].
  - rewrite !contains_app, Ho, Ha, Hv. done.
Qed.

Lemma operator_block_template (op arg var : string) :
  "{" +:+ (op +:+ "|" +:+ arg +:+ "|" +:+ var) +:+ "}"
  = "{" +:+ op +:+ "|" +:+ arg +:+ "|" +:+ var +:+ "}".
Proof. by rewrite !str_app_assoc. Qed.

Lemma _handle_match_one_plain (var name : string) (default : option string)
    (values : gmap string Value) :
  contains "|" var = false -> contains "," var = false ->
  parse_var var = Ok (name, default) ->
  Template._handle_match var values
  = Ok (get values name (Scalar <$> default)).
Proof.
  intros Hbar Hcomma Hvar.
  destruct (parse_expansion_one_plain var (name, default) Hbar Hcomma Hvar)
    as (d & Hp & Hitems & _ & Hlen).
  unfold Template._handle_match. rewrite Hp. cbn [bind].
  by rewrite Hlen, Hitems.
Qed.

Lemma _handle_match_one_operator (optoken arg var name : string)
    (default : option string) (values : gmap string Value)
    (operator : PyDict -> string -> gmap string Value -> result string) :
  contains "|" optoken = false -> contains "|" arg = false ->
  contains "|" var = false -> contains "," var = false ->
  parse_var var = Ok (name, default) ->
  slice_from_1 optoken <> EmptyString ->
  Template.getattr_operator (slice_from_1 optoken) = Some operator ->
  exists d,
    dict_items d = [(name, default)] /\ dict_keys d = [name]
    /\ Template._handle_match (optoken +:+ "|" +:+ arg +:+ "|" +:+ var) values
       = (let! r := operator d arg values in Ok (Some (Scalar r))).
Proof.
  intros Ho Ha Hbar Hcomma Hvar Hop Hget.
  destruct (parse_expansion_one_operator optoken arg var (name, default)
              Ho Ha Hbar Hcomma Hvar) as (d & Hp & Hitems & Hkeys & _).
  exists d. split; [done|]. split; [done|].
  by apply (_handle_match_operator _ _ _ _ _ operator Hp).
Qed.

Lemma parse_var_nonempty (var : string) (decl : string * option string) :
  parse_var var = Ok decl -> var <> EmptyString.
Proof. by intros H ->. Qed.

(** X1. Plain substitution with one variable token, in every case: a text
    value is percent-encoded; a value that is absent is replaced by the
    declared default, taken as it is written, or by nothing; a list value
    makes the final join of [re.sub] fail with a [TypeError]. *)
Theorem X1_plain_substitution (var name : string) (default : option string)
    (values : gmap string Value) :
  contains "}" var = false -> contains "|" var = false ->
  contains "," var = false ->
  parse_var var = Ok (name, default) ->
  Template.expand ("{" +:+ var +:+ "}") values
  = match values !! name with
    | Some (Scalar s) => Ok (quote s)
    | Some (Sequence _) => Raise TypeError
    | None => Ok (from_option id EmptyString default)
    end.
Proof.
  intros Hbrace Hbar Hcomma Hvar.
  pose proof (parse_var_nonempty _ _ Hvar) as Hne.
  pose proof (_handle_match_one_plain var name default
                (percent_encode values) Hbar Hcomma Hvar) as Hm.
  unfold get in Hm. rewrite percent_encode_lookup in Hm.
  destruct (values !! name) as [[s|l]|]; simpl in Hm.
  - by apply (expand_block _ _ (Some (Scalar (quote s)))).
  - by eapply expand_block_list.
  - destruct default as [d|]; simpl in *.
    + by apply (expand_block _ _ (Some (Scalar d))).
    + by apply (expand_block _ _ None).
Qed.

Lemma X1_plain_substitution_witness :
  Template.expand "{foo=a b}" (kw [("bar", Scalar "x")]) = Ok "a b"
  /\ Template.expand "{foo=a b}" (kw [("foo", Scalar "a b")]) = Ok "a%20b"
  /\ Template.expand "{foo}" (kw [("foo", Sequence ["a"])]) = Raise TypeError.
Proof.
  split; [|split].
  - apply (X1_plain_substitution "foo=a b" "foo" (Some "a b")
             (kw [("bar", Scalar "x")])); reflexivity.
  - apply (X1_plain_substitution "foo=a b" "foo" (Some "a b")
             (kw [("foo", Scalar "a b")])); reflexivity.
  - apply (X1_plain_substitution "foo" "foo" None
             (kw [("foo", Sequence ["a"])])); reflexivity.
Defined.

(** X2. The [prefix] operator on one variable token: the argument,
    unencoded, followed by the percent-encoded text value, or by the
    declared default when the variable is absent; the empty text when the
    value is the empty text or the empty list, or is absent without
    default; a [TypeError] when the value is a list that is not empty. *)
Theorem X2_prefix (arg var name : string) (default : option string)
    (values : gmap string Value) :
  contains "|" arg = false -> contains "}" arg = false ->
  contains "}" var = false -> contains "|" var = false ->
  contains "," var = false ->
  parse_var var = Ok (name, default) ->
  Template.expand ("{-prefix|" +:+ arg +:+ "|" +:+ var +:+ "}") values
  = match values !! name with
    | Some (Scalar s) =>
        Ok (if String.eqb s EmptyString then EmptyString
            else arg +:+ quote s)
    | Some (Sequence []) => Ok EmptyString
    | Some (Sequence (_ :: _)) => Raise TypeError
    | None =>
        Ok (match default with
            | Some d => arg +:+ d
            | None => EmptyString
            end)
    end.
Proof.
  intros Ha Ha' Hbrace Hbar Hcomma Hvar.
  destruct (_handle_match_one_operator "-prefix" arg var name default
              (percent_encode values) Template.operator_prefix)
    as (d & Hitems & _ & Hm); try done.
  destruct (operator_block_body "-prefix" arg var) as [Hne Hb]; try done.
  change ("{-prefix|" +:+ arg +:+ "|" +:+ var +:+ "}")
    with ("{" +:+ "-prefix" +:+ "|" +:+ arg +:+ "|" +:+ var +:+ "}").
  rewrite <- operator_block_template.
  unfold Template.operator_prefix, get in Hm.
  rewrite Hitems, percent_encode_lookup in Hm.
  destruct (values !! name) as [[s|[|x l]]|]; simpl in Hm.
  - destruct (String.eqb_spec s EmptyString) as [->|Hs].
    + by apply (expand_block _ _ (Some (Scalar EmptyString))).
    + assert ((0 <? String.length (quote s))%nat = true) as Hlen.
      { apply Nat.ltb_lt. destruct (quote s) eqn:Hq; [|simpl; lia].
        exfalso. by apply Hs, quote_empty. }
      rewrite Hlen in Hm.
      by apply (expand_block _ _ (Some (Scalar (arg +:+ quote s)))).
  - by apply (expand_block _ _ (Some (Scalar EmptyString))).
  - by apply expand_block_Raise.
  - destruct default as [dflt|]; simpl in Hm.
    + pose proof (proj2 (parse_var_Ok _ _ _ Hvar) dflt eq_refl) as Hd.
      destruct dflt as [|c dflt]; [done|]. simpl in Hm.
      by apply (expand_block _ _ (Some (Scalar (arg +:+ String c dflt)))).
    + by apply (expand_block _ _ (Some (Scalar EmptyString))).
Qed.

Lemma X2_prefix_witness :
  Template.expand "{-prefix|&|foo=wilma}" (kw [("foo", Scalar "a b")])
  = Ok "&a%20b"
  /\ Template.expand "{-prefix|&|foo=wilma}" ∅ = Ok "&wilma"
  /\ Template.expand "{-prefix|&|foo}" (kw [("foo", Sequence ["a"])])
     = Raise TypeError.
Proof.
  split; [|split].
  - apply (X2_prefix "&" "foo=wilma" "foo" (Some "wilma")
             (kw [("foo", Scalar "a b")])); reflexivity.
  - exact (X2_prefix "&" "foo=wilma" "foo" (Some "wilma") ∅
             eq_refl eq_refl eq_refl eq_refl eq_refl eq_refl).
  - apply (X2_prefix "&" "foo" "foo" None (kw [("foo", Sequence ["a"])]));
      reflexivity.
Defined.

(** X3. The [append] operator on one variable token: the percent-encoded
    text value, or the declared default when the variable is absent,
    followed by the argument, unencoded; the empty text when the value is
    the empty text or the empty list, or is absent without default; a
    [TypeError] when the value is a list that is not empty. *)
Theorem X3_append (arg var name : string) (default : option string)
    (values : gmap string Value) :
  contains "|" arg = false -> contains "}" arg = false ->
  contains "}" var = false -> contains "|" var = false ->
  contains "," var = false ->
  parse_var var = Ok (name, default) ->
  Template.expand ("{-append|" +:+ arg +:+ "|" +:+ var +:+ "}") values
  = match values !! name with
    | Some (Scalar s) =>
        Ok (if String.eqb s EmptyString then EmptyString
            else quote s +:+ arg)
    | Some (Sequence []) => Ok EmptyString
    | Some (Sequence (_ :: _)) => Raise TypeError
    | None =>
        Ok (match default with
            | Some d => d +:+ arg
            | None => EmptyString
            end)
    end.
Proof.
  intros Ha Ha' Hbrace Hbar Hcomma Hvar.
  destruct (_handle_match_one_operator "-append" arg var name default
              (percent_encode values) Template.operator_append)
    as (d & Hitems & _ & Hm); try done.
  destruct (operator_block_body "-append" arg var) as [Hne Hb]; try done.
  change ("{-append|" +:+ arg +:+ "|" +:+ var +:+ "}")
    with ("{" +:+ "-append" +:+ "|" +:+ arg +:+ "|" +:+ var +:+ "}").
  rewrite <- operator_block_template.
  unfold Template.operator_append, get in Hm.
  rewrite Hitems, percent_encode_lookup in Hm.
  destruct (values !! name) as [[s|[|x l]]|]; simpl in Hm.
  - destruct (String.eqb_spec s EmptyString) as [->|Hs].
    + by apply (expand_block _ _ (Some (Scalar EmptyString))).
    + assert ((0 <? String.length (quote s))%nat = true) as Hlen.
      { apply Nat.ltb_lt. destruct (quote s) eqn:Hq; [|simpl; lia].
        exfalso. by apply Hs, quote_empty. }
      rewrite Hlen in Hm.
      by apply (expand_block _ _ (Some (Scalar (quote s +:+ arg)))).
  - by apply (expand_block _ _ (Some (Scalar EmptyString))).
  - by apply expand_block_Raise.
  - destruct default as [dflt|]; simpl in Hm.
    + pose proof (proj2 (parse_var_Ok _ _ _ Hvar) dflt eq_refl) as Hd.
      destruct dflt as [|c dflt]; [done|]. simpl in Hm.
      by apply (expand_block _ _ (Some (Scalar (String c dflt +:+ arg)))).
    + by apply (expand_block _ _ (Some (Scalar EmptyString))).
Qed.

Lemma X3_append_witness :
  Template.expand "{-append|&?|foo=wilma}" (kw [("foo", Scalar "a/b~")])
  = Ok "a/b%7E&?"
  /\ Template.expand "{-append|#|foo=wilma}" (kw [("bar", Scalar "x")])
     = Ok "wilma#"
  /\ Template.expand "{-append|/|foo}" (kw [("foo", Sequence [])])
     = Ok EmptyString.
Proof.
  split; [|split].
  - exact (X3_append "&?" "foo=wilma" "foo" (Some "wilma")
             (kw [("foo", Scalar "a/b~")])
             eq_refl eq_refl eq_refl eq_refl eq_refl eq_refl).
  - exact (X3_append "#" "foo=wilma" "foo" (Some "wilma")
             (kw [("bar", Scalar "x")])
             eq_refl eq_refl eq_refl eq_refl eq_refl eq_refl).
  - exact (X3_append "/" "foo" "foo" None (kw [("foo", Sequence [])])
             eq_refl eq_refl eq_refl eq_refl eq_refl eq_refl).
Defined.

(** X4. The [listjoin] operator on one variable token: the percent-encoded
    elements of a list value joined by the argument; the empty text when
    the variable is absent, whatever default it declares; and for a text
    value the characters of its encoding joined by the argument, because
    [str.join] iterates over its operand. *)
Theorem X4_listjoin (arg var name : string) (default : option string)
    (values : gmap string Value) :
  contains "|" arg = false -> contains "}" arg = false ->
  contains "}" var = false -> contains "|" var = false ->
  contains "," var = false ->
  parse_var var = Ok (name, default) ->
  Template.expand ("{-listjoin|" +:+ arg +:+ "|" +:+ var +:+ "}") values
  = match values !! name with
    | Some (Sequence l) => Ok (join arg (quote <$> l))
    | Some (Scalar s) => Ok (join arg (chars (quote s)))
    | None => Ok EmptyString
    end.
Proof.
  intros Ha Ha' Hbrace Hbar Hcomma Hvar.
  destruct (_handle_match_one_operator "-listjoin" arg var name default
              (percent_encode values) Template.operator_listjoin)
    as (d & _ & Hkeys & Hm); try done.
  destruct (operator_block_body "-listjoin" arg var) as [Hne Hb]; try done.
  change ("{-listjoin|" +:+ arg +:+ "|" +:+ var +:+ "}")
    with ("{" +:+ "-listjoin" +:+ "|" +:+ arg +:+ "|" +:+ var +:+ "}").
  rewrite <- operator_block_template.
  unfold Template.operator_listjoin, get_value in Hm.
  rewrite Hkeys, percent_encode_lookup in Hm.
  destruct (values !! name) as [[s|l]|]; simpl in Hm.
  - by apply (expand_block _ _ (Some (Scalar (join arg (chars (quote s)))))).
  - by apply (expand_block _ _ (Some (Scalar (join arg (quote <$> l))))).
  - by apply (expand_block _ _ (Some (Scalar EmptyString))).
Qed.

Lemma X4_listjoin_witness :
  Template.expand "{-listjoin|/|path}" (kw [("path", Sequence ["a b"; "c"])])
  = Ok "a%20b/c"
  /\ Template.expand "{-listjoin|/|path=x}" (kw [("q", Scalar "1")])
     = Ok EmptyString
  /\ Template.expand "{-listjoin|/|path}" (kw [("path", Scalar "ab")])
     = Ok "a/b".
Proof.
  split; [|split].
  - exact (X4_listjoin "/" "path" "path" None
             (kw [("path", Sequence ["a b"; "c"])])
             eq_refl eq_refl eq_refl eq_refl eq_refl eq_refl).
  - exact (X4_listjoin "/" "path=x" "path" (Some "x")
             (kw [("q", Scalar "1")])
             eq_refl eq_refl eq_refl eq_refl eq_refl eq_refl).
  - exact (X4_listjoin "/" "path" "path" None
             (kw [("path", Scalar "ab")])
             eq_refl eq_refl eq_refl eq_refl eq_refl eq_refl).
Defined.

(** ** Blocks with two variable tokens *)

Lemma dict_len_size (d : PyDict) :
  dict_wf d -> dict_len d = Z.of_nat (size (dict_map d)).
Proof.
  intros Hwf. rewrite dict_len_items by done.
  by rewrite (dict_items_map d Hwf), length_map_to_list.
Qed.

Lemma parse_expansion_two_plain (var1 var2 : string)
    (decl1 decl2 : string * option string) :
  contains "|" var1 = false -> contains "|" var2 = false ->
  contains "," var1 = false -> contains "," var2 = false ->
  parse_var var1 = Ok decl1 -> parse_var var2 = Ok decl2 ->
  exists d,
    parse_expansion (var1 +:+ "," +:+ var2) = Ok (None, d)
    /\ dict_wf d
    /\ dict_map d = <[decl2.1 := decl2.2]> (<[decl1.1 := decl1.2]> ∅).
Proof.
  intros Hb1 Hb2 Hc1 Hc2 Hv1 Hv2.
  assert (contains "|" (var1 +:+ "," +:+ var2) = false) as Hbar
    by (by rewrite !contains_app, Hb1, Hb2).
  pose proof (parse_expansion_plain _ Hbar) as H.
  change ("," +:+ var2) with (String "," var2) in H.
  rewrite split_app, (contains_false_split _ _ Hc2) in H by done.
  simpl in H. rewrite Hv1, Hv2 in H. simpl in H.
  destruct H as (d & Hp & Hwf & Hm). by exists d.
Qed.

Lemma two_token_template (var1 var2 : string) :
  "{" +:+ var1 +:+ "," +:+ var2 +:+ "}"
  = "{" +:+ (var1 +:+ "," +:+ var2) +:+ "}".
Proof. by rewrite !str_app_assoc. Qed.

(** X5. A plain block that declares two different names fails the
    assertion of [_handle_match] that a plain block has one variable: the
    expansion raises an [AssertionError]. *)
Theorem X5_plain_two_names (var1 var2 name1 name2 : string)
    (default1 default2 : option string) (values : gmap string Value) :
  contains "}" var1 = false -> contains "}" var2 = false ->
  contains "|" var1 = false -> contains "|" var2 = false ->
  contains "," var1 = false -> contains "," var2 = false ->
  parse_var var1 = Ok (name1, default1) ->
  parse_var var2 = Ok (name2, default2) ->
  name1 <> name2 ->
  Template.expand ("{" +:+ var1 +:+ "," +:+ var2 +:+ "}") values
  = Raise AssertionError.
Proof.
  intros Hr1 Hr2 Hb1 Hb2 Hc1 Hc2 Hv1 Hv2 Hne.
  destruct (parse_expansion_two_plain var1 var2 _ _ Hb1 Hb2 Hc1 Hc2 Hv1 Hv2)
    as (d & Hp & Hwf & Hm). simpl in Hm.
  rewrite two_token_template.
  apply expand_block_Raise.
  - pose proof (parse_var_nonempty _ _ Hv1).
    destruct var1; [done|by rewrite str_app_cons].
  - by rewrite !contains_app, Hr1, Hr2.
  - unfold Template._handle_match. rewrite Hp. cbn [bind].
    rewrite (dict_len_size d Hwf), Hm.
    rewrite map_size_insert_None, map_size_insert_None, map_size_empty; [done|done|].
    by rewrite lookup_insert_ne.
Qed.

Lemma X5_plain_two_names_witness :
  Template.expand "{a,b=1}" (kw [("a", Scalar "x")]) = Raise AssertionError.
Proof.
  exact (X5_plain_two_names "a" "b=1" "a" "b" None (Some "1")
           (kw [("a", Scalar "x")])
           eq_refl eq_refl eq_refl eq_refl eq_refl eq_refl eq_refl eq_refl
           ltac:(discriminate)).
Defined.

(** X6. A name that is declared twice is one variable, with the default,
    or the missing default, of its later token: a plain block of two
    tokens of the same name expands as the block of the second token
    alone. *)
Theorem X6_plain_name_twice (var1 var2 name : string)
    (default1 default2 : option string) (values : gmap string Value) :
  contains "}" var1 = false -> contains "}" var2 = false ->
  contains "|" var1 = false -> contains "|" var2 = false ->
  contains "," var1 = false -> contains "," var2 = false ->
  parse_var var1 = Ok (name, default1) ->
  parse_var var2 = Ok (name, default2) ->
  Template.expand ("{" +:+ var1 +:+ "," +:+ var2 +:+ "}") values
  = Template.expand ("{" +:+ var2 +:+ "}") values.
Proof.
  intros Hr1 Hr2 Hb1 Hb2 Hc1 Hc2 Hv1 Hv2.
  destruct (parse_expansion_two_plain var1 var2 _ _ Hb1 Hb2 Hc1 Hc2 Hv1 Hv2)
    as (d & Hp & Hwf & Hm). simpl in Hm. rewrite insert_insert_eq in Hm.
  destruct (dict_items_declared_single d (name, default2) Hwf Hm)
    as (Hitems & _ & Hlen).
  pose proof (_handle_match_one_plain var2 name default2
                (percent_encode values) Hb2 Hc2 Hv2) as Hm2.
  assert (Template._handle_match (var1 +:+ "," +:+ var2)
            (percent_encode values)
          = Template._handle_match var2 (percent_encode values)) as Heq.
  { rewrite Hm2. unfold Template._handle_match. rewrite Hp. cbn [bind].
    by rewrite Hlen, Hitems. }
  assert (var1 +:+ "," +:+ var2 <> EmptyString) as Hne1.
  { pose proof (parse_var_nonempty _ _ Hv1).
    destruct var1; [done|by rewrite str_app_cons]. }
  assert (contains "}" (var1 +:+ "," +:+ var2) = false) as Hbr
    by (by rewrite !contains_app, Hr1, Hr2).
  pose proof (parse_var_nonempty _ _ Hv2) as Hne2.
  rewrite two_token_template.
  destruct (Template._handle_match var2 (percent_encode values))
    as [[[s|l]|]| |] eqn:E.
  - rewrite (expand_block _ s (Some (Scalar s))) by done.
    by rewrite (expand_block var2 s (Some (Scalar s))).
  - rewrite (expand_block_list _ l) by done.
    by rewrite (expand_block_list var2 l).
  - rewrite (expand_block _ EmptyString None) by done.
    by rewrite (expand_block var2 EmptyString None).
  - rewrite (expand_block_Raise _ e) by done.
    by rewrite (expand_block_Raise var2 e).
  - by rewrite Hm2 in E.
Qed.

Lemma X6_plain_name_twice_witness :
  Template.expand "{a=1,a=2}" ∅ = Template.expand "{a=2}" ∅
  /\ Template.expand "{a=1,a=2}" ∅ = Ok "2"
  /\ Template.expand "{a=1,a}" ∅ = Ok EmptyString.
Proof.
  split; [|split; reflexivity].
  exact (X6_plain_name_twice "a=1" "a=2" "a" (Some "1") (Some "2") ∅
           eq_refl eq_refl eq_refl eq_refl eq_refl eq_refl eq_refl eq_refl).
Defined.

(** ** The table of variables *)

Lemma parse_var_list_Forall2 (vars_ : list string)
    (decls : list (string * option string)) :
  parse_var_list vars_ = Ok decls ->
  Forall2 (fun var decl => parse_var var = Ok decl) vars_ decls.
Proof.
  revert decls. induction vars_ as [|var vars_ IH]; intros decls; simpl.
  - intros [= <-]. constructor.
  - destruct (parse_var var) as [decl| |] eqn:Hv; simpl; [|done..].
    destruct (parse_var_list vars_) as [decls'| |]; simpl; [|done..].
    intros [= <-]. constructor; [done|]. by apply IH.
Qed.

Lemma parse_expansion_decls (body : string)
    (op_arg : option (string * string)) (variables : PyDict) :
  parse_expansion body = Ok (op_arg, variables) ->
  exists (vars_ : string) (decls : list (string * option string)),
    parse_var_list (split "," vars_) = Ok decls
    /\ dict_wf variables /\ dict_map variables = declare ∅ decls.
Proof.
  unfold parse_expansion.
  destruct (if contains "|" body then _ else _) as [[oa vars_]|e|];
    simpl; [|done..].
  destruct (parse_vars (split "," vars_) PyDict_New) as [d| |] eqn:E;
    simpl; [|done..].
  intros [= <- <-].
  destruct (parse_vars_wf _ _ _ dict_wf_New E) as (Hwf & decls & Hd & Hm).
  by exists vars_, decls.
Qed.

(** X7. The table of variables that [parse_expansion] returns is never
    empty, holds every name once, holds only names that the name pattern
    accepts, holds no empty default, and its length is the number of its
    names. *)
Theorem X7_variables_table (body : string)
    (op_arg : option (string * string)) (variables : PyDict) :
  parse_expansion body = Ok (op_arg, variables) ->
  dict_keys variables <> []
  /\ NoDup (dict_keys variables)
  /\ Forall (fun k => _varname_pattern k = true) (dict_keys variables)
  /\ (forall k d, (k, Some d) ∈ dict_items variables -> d <> EmptyString)
  /\ dict_len variables = Z.of_nat (length (dict_keys variables)).
Proof.
  intros (vars_ & decls & Hdecls & Hwf & Hm)%parse_expansion_decls.
  apply parse_var_list_Forall2 in Hdecls.
  assert (forall k v, (k, v) ∈ dict_items variables -> (k, v) ∈ decls) as Hin.
  { intros k v Hkv.
    rewrite (dict_items_declared variables decls Hwf Hm) in Hkv.
    apply elem_of_map_to_list in Hkv.
    rewrite declare_list_to_map in Hkv.
    apply elem_of_list_to_map_2 in Hkv. by rewrite elem_of_reverse in Hkv. }
  assert (forall k v, (k, v) ∈ decls ->
            _varname_pattern k = true
            /\ forall d, v = Some d -> d <> EmptyString) as Hdecl.
  { intros k v Hkv.
    apply list_elem_of_lookup in Hkv as [i Hi].
    destruct (Forall2_lookup_r _ _ _ _ _ Hdecls Hi) as (var & _ & Hvar).
    by eapply parse_var_Ok. }
  split; [|split; [|split; [|split]]].
  - intros Hnil.
    pose proof (split_length "," vars_) as Hlen.
    rewrite (Forall2_length _ _ _ Hdecls) in Hlen.
    destruct decls as [|[k v] decls]; [simpl in Hlen; lia|].
    assert (k ∈ dict_keys variables) as Hk.
    { apply (elem_of_dict_keys_declared variables ((k, v) :: decls));
        [done|done|]. left. }
    rewrite Hnil in Hk. by apply elem_of_nil in Hk.
  - by apply NoDup_dict_keys.
  - apply Forall_forall. intros k Hk.
    rewrite dict_keys_items in Hk.
    apply list_elem_of_fmap in Hk as ([k' v] & -> & Hkv).
    by apply (Hdecl k' v), Hin.
  - intros k d Hkd. by apply (Hdecl k (Some d)); [apply Hin|].
  - rewrite dict_len_items by done.
    by rewrite dict_keys_items, length_fmap.
Qed.

Lemma X7_variables_table_witness :
  dict_keys foo_wilma <> []
  /\ NoDup (dict_keys foo_wilma)
  /\ Forall (fun k => _varname_pattern k = true) (dict_keys foo_wilma)
  /\ (forall k d, (k, Some d) ∈ dict_items foo_wilma -> d <> EmptyString)
  /\ dict_len foo_wilma = Z.of_nat (length (dict_keys foo_wilma)).
Proof.
  exact (X7_variables_table "-prefix|&|foo=wilma" (Some ("prefix", "&"))
           foo_wilma eq_refl).
Defined.

(** ** The exceptions that can escape *)

Lemma _handle_match_no_IndexError (group1 : string)
    (values : gmap string Value) :
  Template._handle_match group1 values <> Raise IndexError.
Proof.
  unfold Template._handle_match.
  destruct (parse_expansion group1) as [[op_arg variables]|e|] eqn:Hp;
    simpl; [| |done].
  - destruct (parse_expansion_decls _ _ _ Hp) as (vars_ & decls & Hd & Hwf & Hm).
    pose proof (parse_var_list_Forall2 _ _ Hd) as HF.
    pose proof (split_length "," vars_) as Hlen.
    rewrite (Forall2_length _ _ _ HF) in Hlen.
    assert (dict_keys variables <> []) as Hkeys.
    { intros Hnil. destruct decls as [|[k v] decls]; [simpl in Hlen; lia|].
      assert (k ∈ dict_keys variables) as Hk.
      { apply (elem_of_dict_keys_declared variables ((k, v) :: decls));
          [done|done|]. left. }
      rewrite Hnil in Hk. by apply elem_of_nil in Hk. }
    assert (dict_items variables <> []) as Hitems.
    { intros Hnil. apply Hkeys. by rewrite dict_keys_items, Hnil. }
    assert ((if dict_len variables =? 1
             then match dict_items variables with
                  | [] => Raise IndexError
                  | (key, default) :: _ =>
                      Ok (get values key (Scalar <$> default))
                  end
             else Raise AssertionError)
            <> (Raise IndexError : result (option Value))) as Hplain.
    { destruct (_ =? _); [|done].
      by destruct (dict_items variables) as [|[? ?] ?]. }
    destruct op_arg as [[[|c op] arg]|]; [done| |done].
    unfold Template.getattr_operator.
    repeat (destruct (String.eqb (String c op) _); [|]); try done;
      cbn [bind].
    + unfold Template.operator_neg, Template.operator_opt. simpl.
      by destruct (negb _).
    + unfold Template.operator_listjoin.
      destruct (dict_keys variables); [done|].
      by destruct (get_value _ _ _).
    + unfold Template.operator_prefix.
      destruct (dict_items variables) as [|[k d] ?]; [done|].
      destruct (get _ _ _) as [[?|?]|]; [..|done];
        by destruct (_ <? _)%nat.
    + unfold Template.operator_append.
      destruct (dict_items variables) as [|[k d] ?]; [done|].
      destruct (get _ _ _) as [[?|?]|]; [..|done];
        by destruct (_ <? _)%nat.
  - intros [= ->]. revert Hp. unfold parse_expansion.
    destruct (if contains "|" group1 then _ else _) as [[oa vars_]|e|] eqn:E;
      simpl.
    + pose proof (parse_vars_spec (split "," vars_) PyDict_New dict_wf_New) as H.
      destruct (parse_var_list (split "," vars_)) as [decls|e|] eqn:Hd;
        [| |done].
      * by destruct H as (d & -> & _).
      * rewrite H. intros [= ->]. clear H.
        revert Hd. generalize (split "," vars_). intros l.
        induction l as [|var l IH]; [done|]. simpl.
        destruct (parse_var var) as [decl|e|] eqn:Hv; simpl.
        -- by destruct (parse_var_list l).
        -- intros [= ->]. revert Hv. unfold parse_var.
           destruct (contains "=" var).
           ++ destruct (split "=" var) as [|n [|d [|? ?]]]; try done.
              destruct (String.eqb d EmptyString); [done|]. simpl.
              by destruct (negb _).
           ++ simpl. by destruct (negb _).
        -- done.
    + intros [= ->]. destruct (contains "|" group1); [|done].
      by destruct (split "|" group1) as [|? [|? [|? [|? ?]]]].
    + done.
Qed.

Lemma sub_items_Raise repl (s : string) (e : exn) :
  forall skip, sub_items repl s skip = Raise e ->
               exists body, repl body = Raise e.
Proof.
  induction s as [|c s IH]; intros skip; [done|].
  cbn [sub_items]. destruct skip as [|skip]; [|apply IH].
  destruct (_template_pattern (String c s)) as [[body rest]|].
  - destruct (repl body) as [item|e'|] eqn:Hr; simpl.
    + destruct (sub_items repl s _) eqn:Hs; simpl; [done| |done].
      intros [= ->]. by eapply IH.
    + intros [= ->]. by exists body.
    + done.
  - destruct (sub_items repl s 0) eqn:Hs; simpl; [done| |done].
    intros [= ->]. by eapply IH.
Qed.

Lemma join_items_Raise (items : list Value) (e : exn) :
  join_items items = Raise e -> e = TypeError.
Proof.
  induction items as [|[s|l] items IH]; simpl; [done| |congruence].
  destruct (join_items items); simpl; [done| |done].
  intros [= ->]. by apply IH.
Qed.

(** X8. Although the operators index [variables.keys()] and
    [variables.items()] at zero, no expansion raises an [IndexError]: the
    exceptions that leave [expand] are [TemplateSyntaxError], [ValueError],
    [AssertionError] and [TypeError]. *)
Theorem X8_no_IndexError (template : string) (values : gmap string Value) :
  Template.expand template values <> Raise IndexError.
Proof.
  unfold Template.expand, re_sub. intros H.
  destruct (sub_items _ template 0) as [items|e|] eqn:Hs; simpl in H.
  - by apply join_items_Raise in H.
  - injection H as ->. apply sub_items_Raise in Hs as [body Hb].
    by apply _handle_match_no_IndexError in Hb.
  - done.
Qed.

(** ** Operator names *)

Lemma parse_var_list_Ok (vars_ : list string) :
  Forall (fun var => exists decl, parse_var var = Ok decl) vars_ ->
  exists decls, parse_var_list vars_ = Ok decls.
Proof.
  induction 1 as [|var vars_ [decl Hv] _ [decls IH]]; simpl.
  - by exists [].
  - rewrite Hv, IH. simpl. by eexists.
Qed.

Lemma expand_block_eq (body1 body2 : string) (values : gmap string Value) :
  body1 <> EmptyString -> contains "}" body1 = false ->
  body2 <> EmptyString -> contains "}" body2 = false ->
  Template._handle_match body1 (percent_encode values)
  = Template._handle_match body2 (percent_encode values) ->
  Template.expand ("{" +:+ body1 +:+ "}") values
  = Template.expand ("{" +:+ body2 +:+ "}") values.
Proof.
  intros Hn1 Hb1 Hn2 Hb2 Heq.
  pose proof (_handle_match_no_Diverge body2 (percent_encode values)) as Hnd.
  destruct (Template._handle_match body2 (percent_encode values))
    as [[[s|l]|]|e|] eqn:E; [..|done].
  - rewrite (expand_block body1 s (Some (Scalar s))) by done.
    by rewrite (expand_block body2 s (Some (Scalar s))).
  - rewrite (expand_block_list body1 l) by done.
    by rewrite (expand_block_list body2 l).
  - rewrite (expand_block body1 EmptyString None) by done.
    by rewrite (expand_block body2 EmptyString None).
  - rewrite (expand_block_Raise body1 e) by done.
    by rewrite (expand_block_Raise body2 e).
Qed.

(** X9. An operator name outside the six names of the class, on variable
    tokens that all parse, is a [TemplateSyntaxError] whose message shows
    the name. *)
Theorem X9_unexpected_operator (c : ascii) (op arg vars_ : string)
    (values : gmap string Value) :
  op <> EmptyString ->
  op ∉ ["opt"; "neg"; "listjoin"; "join"; "prefix"; "append"] ->
  contains "|" (String c op) = false -> contains "}" (String c op) = false ->
  contains "|" arg = false -> contains "}" arg = false ->
  contains "|" vars_ = false -> contains "}" vars_ = false ->
  Forall (fun var => exists decl, parse_var var = Ok decl) (split "," vars_) ->
  Template.expand
    ("{" +:+ String c op +:+ "|" +:+ arg +:+ "|" +:+ vars_ +:+ "}") values
  = Raise (TemplateSyntaxError ("Unexpected operator: " +:+ repr op)).
Proof.
  intros Hne Hop Ho Ho' Ha Ha' Hv Hv' Hvars.
  destruct (parse_var_list_Ok _ Hvars) as [decls Hdecls].
  pose proof (parse_expansion_operator (String c op) arg vars_ Ho Ha Hv) as H.
  rewrite Hdecls in H. destruct H as (d & Hp & _ & _).
  destruct (operator_block_body (String c op) arg vars_) as [Hn Hb];
    try done.
  rewrite <- operator_block_template. apply expand_block_Raise; try done.
  unfold Template._handle_match. rewrite Hp. cbn [bind slice_from_1].
  destruct op as [|c' op]; [done|].
  assert (Template.getattr_operator (String c' op) = None) as ->; [|done].
  unfold Template.getattr_operator.
  repeat (apply not_elem_of_cons in Hop as [Hx%String.eqb_neq Hop];
          rewrite Hx; clear Hx).
  done.
Qed.

Lemma X9_unexpected_operator_witness :
  Template.expand "{-sub|&|foo,bar=1}" (kw [("foo", Scalar "x")])
  = Raise (TemplateSyntaxError ("Unexpected operator: " +:+ repr "sub")).
Proof.
  apply (X9_unexpected_operator "-" "sub" "&" "foo,bar=1"
           (kw [("foo", Scalar "x")])); try reflexivity.
  - discriminate.
  - repeat (apply not_elem_of_cons; split; [discriminate|]).
    apply not_elem_of_nil.
  - repeat constructor; eexists; reflexivity.
Defined.

Lemma parse_expansion_plain_eq (vars_ : string) :
  contains "|" vars_ = false ->
  parse_expansion vars_
  = (let! variables := parse_vars (split "," vars_) PyDict_New in
     Ok (None, variables)).
Proof. intros Hbar. unfold parse_expansion. by rewrite Hbar. Qed.

(** X10. A block whose operator token yields the empty operator name, that
    is a token of at most one character, is a plain block: its argument is
    ignored and it expands as the block of its variables alone. *)
Theorem X10_empty_operator_name (optoken arg vars_ : string)
    (values : gmap string Value) :
  slice_from_1 optoken = EmptyString ->
  contains "|" optoken = false -> contains "}" optoken = false ->
  contains "|" arg = false -> contains "}" arg = false ->
  contains "|" vars_ = false -> contains "}" vars_ = false ->
  vars_ <> EmptyString ->
  Template.expand
    ("{" +:+ optoken +:+ "|" +:+ arg +:+ "|" +:+ vars_ +:+ "}") values
  = Template.expand ("{" +:+ vars_ +:+ "}") values.
Proof.
  intros Hop Ho Ho' Ha Ha' Hv Hv' Hne.
  destruct (operator_block_body optoken arg vars_) as [Hn Hb]; try done.
  rewrite <- operator_block_template. apply expand_block_eq; try done.
  unfold Template._handle_match.
  rewrite parse_expansion_operator_eq, parse_expansion_plain_eq by done.
  rewrite Hop.
  by destruct (parse_vars (split "," vars_) PyDict_New).
Qed.

Lemma X10_empty_operator_name_witness :
  Template.expand "{-|&|foo=wilma}" ∅ = Template.expand "{foo=wilma}" ∅
  /\ Template.expand "{|&|foo=wilma}" ∅ = Ok "wilma".
Proof.
  split; [|reflexivity].
  exact (X10_empty_operator_name "-" "&" "foo=wilma" ∅
           eq_refl eq_refl eq_refl eq_refl eq_refl eq_refl eq_refl
           ltac:(discriminate)).
Defined.

(** X11. The first character of the operator token is dropped without
    being looked at: whatever it is, the block expands as the block with a
    hyphen in its place. *)
Theorem X11_operator_first_character (c : ascii) (op arg vars_ : string)
    (values : gmap string Value) :
  c <> "|"%char -> c <> "}"%char ->
  contains "|" op = false -> contains "}" op = false ->
  contains "|" arg = false -> contains "}" arg = false ->
  contains "|" vars_ = false -> contains "}" vars_ = false ->
  Template.expand
    ("{" +:+ String c op +:+ "|" +:+ arg +:+ "|" +:+ vars_ +:+ "}") values
  = Template.expand
      ("{" +:+ String "-" op +:+ "|" +:+ arg +:+ "|" +:+ vars_ +:+ "}") values.
Proof.
  intros Hc Hc' Ho Ho' Ha Ha' Hv Hv'.
  apply Ascii.eqb_neq in Hc, Hc'.
  assert (contains "|" (String c op) = false) as Hco
    by (simpl; by rewrite Hc).
  assert (contains "}" (String c op) = false) as Hco'
    by (simpl; by rewrite Hc').
  destruct (operator_block_body (String c op) arg vars_) as [Hn Hb];
    try done.
  destruct (operator_block_body (String "-" op) arg vars_) as [Hn2 Hb2];
    try done.
  rewrite <- !operator_block_template. apply expand_block_eq; try done.
  unfold Template._handle_match.
  by rewrite !parse_expansion_operator_eq.
Qed.

Lemma X11_operator_first_character_witness :
  Template.expand "{+join|&|a,b}" (kw [("a", Scalar "1"); ("b", Scalar "2")])
  = Template.expand "{-join|&|a,b}" (kw [("a", Scalar "1"); ("b", Scalar "2")]).
Proof.
  apply (X11_operator_first_character "+" "join" "&" "a,b"
           (kw [("a", Scalar "1"); ("b", Scalar "2")]));
    (reflexivity || discriminate).
Defined.

(** ** Tokens in error *)

Lemma expand_one_token_Raise (var : string) (e : exn)
    (values : gmap string Value) :
  var <> EmptyString -> contains "}" var = false ->
  contains "|" var = false -> contains "," var = false ->
  parse_var var = Raise e ->
  Template.expand ("{" +:+ var +:+ "}") values = Raise e.
Proof.
  intros Hne Hb Hbar Hc Hv. apply expand_block_Raise; try done.
  unfold Template._handle_match.
  rewrite parse_expansion_plain_eq, (contains_false_split _ _ Hc) by done.
  simpl. by rewrite Hv.
Qed.

(** X12. A token whose name the name pattern rejects, with or without a
    default, is a [TemplateSyntaxError] that shows the name, not the
    token. *)
Theorem X12_invalid_name (var name : string) (values : gmap string Value) :
  var = name
  \/ (exists d, d <> EmptyString /\ contains "=" d = false
                /\ var = name +:+ "=" +:+ d) ->
  contains "=" name = false -> _varname_pattern name = false ->
  var <> EmptyString -> contains "}" var = false ->
  contains "|" var = false -> contains "," var = false ->
  Template.expand ("{" +:+ var +:+ "}") values
  = Raise (TemplateSyntaxError ("Invalid variable: " +:+ repr name)).
Proof.
  intros Hvar He Hn Hne Hb Hbar Hc. apply expand_one_token_Raise; try done.
  unfold parse_var. destruct Hvar as [->|(d & Hd & Hde & ->)].
  - rewrite He. simpl. by rewrite Hn.
  - rewrite contains_app. simpl. rewrite orb_true_r.
    change ("=" +:+ d) with (String "=" d).
    rewrite split_app, (contains_false_split _ _ Hde) by done.
    apply String.eqb_neq in Hd. rewrite Hd. simpl. by rewrite Hn.
Qed.

Lemma X12_invalid_name_witness :
  Template.expand "{f:=wilma}" ∅
  = Raise (TemplateSyntaxError ("Invalid variable: " +:+ repr "f:")).
Proof.
  apply (X12_invalid_name "f:=wilma" "f:" ∅); try reflexivity;
    try discriminate.
  right. exists "wilma". repeat split. discriminate.
Defined.

(** X13. A token that ends in its only equals sign declares an empty
    default: a [TemplateSyntaxError] that shows the whole token.  The name
    in front of the sign is not looked at. *)
Theorem X13_empty_default (name : string) (values : gmap string Value) :
  contains "=" name = false -> contains "}" name = false ->
  contains "|" name = false -> contains "," name = false ->
  Template.expand ("{" +:+ name +:+ "=" +:+ "}") values
  = Raise (TemplateSyntaxError
             ("Invalid variable: " +:+ repr (name +:+ "="))).
Proof.
  intros He Hb Hbar Hc.
  rewrite <- (str_app_assoc name "=" "}").
  apply expand_one_token_Raise.
  - destruct name; [by rewrite str_app_nil_l|by rewrite str_app_cons].
  - by rewrite contains_app, Hb.
  - by rewrite contains_app, Hbar.
  - by rewrite contains_app, Hc.
  - unfold parse_var. rewrite contains_app. simpl. rewrite orb_true_r.
    change "="%string with (String "=" EmptyString).
    by rewrite split_app.
Qed.

Lemma X13_empty_default_witness :
  Template.expand "{<:=}" ∅
  = Raise (TemplateSyntaxError ("Invalid variable: " +:+ repr "<:=")).
Proof.
  exact (X13_empty_default "<:" ∅ eq_refl eq_refl eq_refl eq_refl).
Defined.

(** X14. A token with two equals signs or more cannot be unpacked into a
    name and a default: the [ValueError] of the tuple assignment leaves
    [expand]. *)
Theorem X14_two_equals_signs (var : string) (values : gmap string Value) :
  (2 < length (split "=" var))%nat ->
  contains "}" var = false -> contains "|" var = false ->
  contains "," var = false ->
  Template.expand ("{" +:+ var +:+ "}") values = Raise ValueError.
Proof.
  intros Hlen Hb Hbar Hc. apply expand_one_token_Raise; try done.
  - by intros ->; simpl in Hlen; lia.
  - unfold parse_var.
    destruct (contains "=" var) eqn:He.
    + by destruct (split "=" var) as [|? [|? [|? ?]]]; simpl in Hlen;
        try lia.
    + rewrite (contains_false_split _ _ He) in Hlen. simpl in Hlen. lia.
Qed.

Lemma X14_two_equals_signs_witness :
  Template.expand "{foo=a=b}" ∅ = Raise ValueError.
Proof.
  apply (X14_two_equals_signs "foo=a=b" ∅); try reflexivity.
  simpl. lia.
Defined.

Lemma split_join (c : ascii) (parts : list string) :
  parts <> [] -> Forall (fun p => contains c p = false) parts ->
  split c (join (String c EmptyString) parts) = parts.
Proof.
  intros Hne Hall. induction Hall as [|p parts Hp Hall IH]; [done|].
  destruct parts as [|q parts].
  - simpl. by apply contains_false_split.
  - change (join (String c EmptyString) (p :: q :: parts))
      with (p +:+ String c EmptyString
              +:+ join (String c EmptyString) (q :: parts)).
    change (String c EmptyString +:+ join (String c EmptyString) (q :: parts))
      with (String c (join (String c EmptyString) (q :: parts))).
    rewrite split_app by done. by rewrite IH.
Qed.

Lemma contains_join (c c' : ascii) (parts : list string) :
  Ascii.eqb c' c = false ->
  Forall (fun p => contains c p = false) parts ->
  contains c (join (String c' EmptyString) parts) = false.
Proof.
  intros Hc Hall. induction Hall as [|p parts Hp Hall IH]; [done|].
  destruct parts as [|q parts]; [done|].
  change (join (String c' EmptyString) (p :: q :: parts))
    with (p +:+ String c' (join (String c' EmptyString) (q :: parts))).
  rewrite contains_app, Hp. cbn [contains orb]. rewrite Hc. apply IH.
Qed.

Lemma parse_var_list_first_Raise (pre post : list string) (var : string)
    (e : exn) :
  Forall (fun v => exists decl, parse_var v = Ok decl) pre ->
  parse_var var = Raise e ->
  parse_var_list (pre ++ var :: post) = Raise e.
Proof.
  intros Hpre Hv. induction Hpre as [|v pre [decl Hd] _ IH]; simpl.
  - by rewrite Hv.
  - by rewrite Hd, IH.
Qed.

(** X15. The tokens of a block are checked from left to right, and all of
    them before the operator is looked up: the error of the first token
    that is in error is the outcome of the expansion, whatever follows the
    token and whatever the operator name, in a plain block (other than the
    empty pair of braces, which is no block) and in a block with an
    operator. *)
Theorem X15_first_token_in_error (optoken arg var : string)
    (pre post : list string) (e : exn) (values : gmap string Value) :
  contains "|" optoken = false -> contains "}" optoken = false ->
  contains "|" arg = false -> contains "}" arg = false ->
  Forall (fun v => contains "," v = false) (pre ++ var :: post) ->
  Forall (fun v => contains "|" v = false) (pre ++ var :: post) ->
  Forall (fun v => contains "}" v = false) (pre ++ var :: post) ->
  Forall (fun v => exists decl, parse_var v = Ok decl) pre ->
  parse_var var = Raise e ->
  pre ++ var :: post <> [EmptyString] ->
  Template.expand ("{" +:+ join "," (pre ++ var :: post) +:+ "}") values
  = Raise e
  /\ Template.expand
       ("{" +:+ optoken +:+ "|" +:+ arg +:+ "|"
            +:+ join "," (pre ++ var :: post) +:+ "}") values
     = Raise e.
Proof.
  intros Ho Ho' Ha Ha' Hc Hbar Hb Hpre Hv Hblock.
  set (vars_ := pre ++ var :: post) in *.
  assert (vars_ <> []) as Hne by (subst vars_; by destruct pre).
  assert (split "," (join "," vars_) = vars_) as Hsplit
    by by apply split_join.
  assert (contains "|" (join "," vars_) = false) as Hjbar
    by by apply contains_join.
  assert (contains "}" (join "," vars_) = false) as Hjb
    by by apply contains_join.
  assert (parse_vars vars_ PyDict_New = Raise e) as Hvars.
  { pose proof (parse_vars_spec vars_ PyDict_New dict_wf_New) as H.
    subst vars_. by rewrite (parse_var_list_first_Raise pre post var e) in H. }
  split.
  - apply expand_block_Raise; try done.
    + intros Hj. by rewrite Hj in Hsplit.
    + unfold Template._handle_match.
      rewrite parse_expansion_plain_eq, Hsplit, Hvars by done. done.
  - destruct (operator_block_body optoken arg (join "," vars_)) as [Hn Hb'];
      try done.
    rewrite <- operator_block_template. apply expand_block_Raise; try done.
    unfold Template._handle_match.
    rewrite parse_expansion_operator_eq, Hsplit, Hvars by done. done.
Qed.

Lemma X15_first_token_in_error_witness :
  Template.expand "{a,<:fred,b=}" ∅
  = Raise (TemplateSyntaxError ("Invalid variable: " +:+ repr "<:fred"))
  /\ Template.expand "{-sub|&|a,<:fred,b=}" ∅
     = Raise (TemplateSyntaxError ("Invalid variable: " +:+ repr "<:fred")).
Proof.
  apply (X15_first_token_in_error "-sub" "&" "<:fred" ["a"] ["b="]
           (TemplateSyntaxError ("Invalid variable: " +:+ repr "<:fred")) ∅);
    try reflexivity; try discriminate; repeat constructor.
  eexists; reflexivity.
Defined.

(** ** Templates in sequence *)

Lemma span_body_app (a b : string) :
  contains "}" a = true ->
  exists body rest,
    span_body a = (body, String "}" rest)
    /\ span_body (a +:+ b) = (body, String "}" rest +:+ b)
    /\ (String.length body < String.length a)%nat.
Proof.
  induction a as [|c a IH]; [done|]. rewrite str_app_cons. simpl.
  destruct (Ascii.eqb_spec c "}") as [->|Hc].
  - intros _. exists EmptyString, a. repeat split. simpl. lia.
  - simpl. intros Ha. destruct (IH Ha) as (body & rest & -> & -> & Hlen).
    exists (String c body), rest. repeat split. simpl. lia.
Qed.

Lemma _template_pattern_app (c : ascii) (s t : string) :
  braces_closed (String c s) = true ->
  match _template_pattern (String c s) with
  | Some (body, rest) =>
      _template_pattern (String c s +:+ t) = Some (body, rest +:+ t)
      /\ (String.length body + 1 <= String.length s)%nat
  | None => _template_pattern (String c s +:+ t) = None
  end.
Proof.
  rewrite str_app_cons. simpl.
  destruct (Ascii.eqb c "{"); [|done]. simpl.
  intros [Hs _]%andb_true_iff.
  destruct (span_body_app s t Hs) as (body & rest & -> & -> & Hlen).
  rewrite str_app_cons. destruct body; [done|]. split; [done|lia].
Qed.

Lemma sub_items_app repl (s t : string) :
  forall skip,
    braces_closed s = true -> (skip <= String.length s)%nat ->
    sub_items repl (s +:+ t) skip
    = (let! items1 := sub_items repl s skip in
       let! items2 := sub_items repl t 0 in
       Ok (items1 ++ items2)).
Proof.
  induction s as [|c s IH]; intros skip Hs Hskip.
  - simpl in Hskip. assert (skip = 0%nat) as -> by lia.
    rewrite str_app_nil_l. cbn [sub_items bind app].
    by destruct (sub_items repl t 0).
  - assert (braces_closed s = true) as Hs'
      by (simpl in Hs; by apply andb_true_iff in Hs as [_ ?]).
    destruct skip as [|skip].
    + pose proof (_template_pattern_app c s t Hs) as Hp.
      rewrite str_app_cons in *. cbn [sub_items].
      destruct (_template_pattern (String c s)) as [[body rest]|].
      * destruct Hp as [-> Hlen].
        destruct (repl body) as [item|e|]; simpl; [|done..].
        rewrite IH by done.
        destruct (sub_items repl s _) as [items1|e|]; simpl; [|done..].
        destruct (sub_items repl t 0) as [items2|e|]; simpl; [|done..].
        by destruct item.
      * rewrite Hp, IH by (done || lia).
        destruct (sub_items repl s 0) as [items1|e|]; simpl; [|done..].
        by destruct (sub_items repl t 0) as [items2|e|].
    + rewrite str_app_cons. cbn [sub_items]. apply IH; [done|].
      simpl in Hskip. lia.
Qed.

Lemma join_items_app (items1 items2 : list Value) :
  join_items (items1 ++ items2)
  = (let! a := join_items items1 in
     let! b := join_items items2 in
     Ok (a +:+ b)).
Proof.
  induction items1 as [|[s|l] items1 IH]; simpl; [| |done].
  - by destruct (join_items items2).
  - rewrite IH. destruct (join_items items1) as [a|e|]; simpl; [|done..].
    destruct (join_items items2) as [b|e|]; simpl; [|done..].
    by rewrite str_app_assoc.
Qed.

(** X16. Expansion distributes over the concatenation of templates: when
    every opening brace of the first template has a closing brace later in
    that template, and the first template expands to a text, the template
    made of the two expands to that text followed by the expansion of the
    second, and fails as the second does. *)
Theorem X16_expand_app (template1 template2 a : string)
    (values : gmap string Value) :
  braces_closed template1 = true ->
  Template.expand template1 values = Ok a ->
  Template.expand (template1 +:+ template2) values
  = match Template.expand template2 values with
    | Ok b => Ok (a +:+ b)
    | Raise e => Raise e
    | Diverge => Diverge
    end.
Proof.
  unfold Template.expand, re_sub. intros Hclosed H1.
  rewrite sub_items_app by (done || lia).
  destruct (sub_items _ template1 0) as [items1|e|]; simpl in *; [|done..].
  destruct (sub_items _ template2 0) as [items2|e|]; simpl; [|done..].
  rewrite join_items_app, H1. simpl.
  by destruct (join_items items2).
Qed.

Lemma X16_expand_app_witness :
  Template.expand ("http://{host}/" +:+ "{-listjoin|/|path}")
    (kw [("host", Scalar "example.com"); ("path", Sequence ["a"; "b"])])
  = Ok "http://example.com/a/b".
Proof.
  exact (X16_expand_app "http://{host}/" "{-listjoin|/|path}"
           "http://example.com/"
           (kw [("host", Scalar "example.com"); ("path", Sequence ["a"; "b"])])
           eq_refl eq_refl).
Defined.

(** ** The entries of [values] that an expansion reads *)

Lemma parse_expansion_keys (body : string)
    (op_arg : option (string * string)) (variables : PyDict) :
  parse_expansion body = Ok (op_arg, variables) ->
  Forall (fun kv => _varname_pattern kv.1 = true) (dict_items variables).
Proof.
  intros (vars_ & decls & Hdecls & Hwf & Hm)%parse_expansion_decls.
  apply parse_var_list_Forall2 in Hdecls.
  apply Forall_forall. intros [k v] Hkv. simpl.
  rewrite (dict_items_declared variables decls Hwf Hm) in Hkv.
  apply elem_of_map_to_list in Hkv.
  rewrite declare_list_to_map in Hkv.
  apply elem_of_list_to_map_2 in Hkv. rewrite elem_of_reverse in Hkv.
  apply list_elem_of_lookup in Hkv as [i Hi].
  destruct (Forall2_lookup_r _ _ _ _ _ Hdecls Hi) as (var & _ & Hvar).
  by eapply parse_var_Ok.
Qed.

Section frame.
Variables values1 values2 : gmap string Value.
Hypothesis agree :
  forall k, _varname_pattern k = true -> values1 !! k = values2 !! k.

Lemma get_frame (k : string) (default : option Value) :
  _varname_pattern k = true -> get values1 k default = get values2 k default.
Proof. intros Hk. unfold get. by rewrite (agree k Hk). Qed.

Lemma operator_opt_loop_frame (keys : list string) (arg : string) :
  Forall (fun k => _varname_pattern k = true) keys ->
  Template.operator_opt_loop keys arg values1
  = Template.operator_opt_loop keys arg values2.
Proof.
  induction 1 as [|k keys Hk _ IH]; [done|]. simpl.
  by rewrite (get_frame k None Hk), IH.
Qed.

Lemma operator_frame (variables : PyDict) (op arg : string) operator :
  Forall (fun kv => _varname_pattern kv.1 = true) (dict_items variables) ->
  Template.getattr_operator op = Some operator ->
  operator variables arg values1 = operator variables arg values2.
Proof.
  intros Hkeys.
  assert (Forall (fun k => _varname_pattern k = true) (dict_keys variables))
    as Hkeys' by (rewrite dict_keys_items; by apply Forall_fmap).
  unfold Template.getattr_operator.
  repeat (case_match; [intros [= <-]|]); [| | | | | |done].
  - unfold Template.operator_opt. by rewrite operator_opt_loop_frame.
  - unfold Template.operator_neg, Template.operator_opt.
    by rewrite operator_opt_loop_frame.
  - unfold Template.operator_listjoin.
    destruct Hkeys' as [|k keys Hk _]; [done|].
    unfold get_value. by rewrite (agree k Hk).
  - unfold Template.operator_join. do 2 f_equal.
    induction Hkeys as [|[k default] items Hk _ IH]; [done|]. simpl in *.
    rewrite (get_frame k _ Hk). unfold omap in IH. by rewrite IH.
  - unfold Template.operator_prefix.
    destruct Hkeys as [|[k default] items Hk _]; [done|]. simpl in Hk.
    by rewrite (get_frame k _ Hk).
  - unfold Template.operator_append.
    destruct Hkeys as [|[k default] items Hk _]; [done|]. simpl in Hk.
    by rewrite (get_frame k _ Hk).
Qed.

Lemma _handle_match_frame (group1 : string) :
  Template._handle_match group1 values1
  = Template._handle_match group1 values2.
Proof.
  unfold Template._handle_match.
  destruct (parse_expansion group1) as [[op_arg variables]|e|] eqn:Hp;
    [|done..].
  apply parse_expansion_keys in Hp. simpl.
  assert ((if dict_len variables =? 1
           then match dict_items variables with
                | [] => Raise IndexError
                | (key, default) :: _ =>
                    Ok (get values1 key (Scalar <$> default))
                end
           else Raise AssertionError)
          = (if dict_len variables =? 1
             then match dict_items variables with
                  | [] => Raise IndexError
                  | (key, default) :: _ =>
                      Ok (get values2 key (Scalar <$> default))
                  end
             else Raise AssertionError)) as Hplain.
  { destruct (dict_len variables =? 1); [|done].
    destruct Hp as [|[k default] items Hk _]; [done|]. simpl in Hk.
    by rewrite (get_frame k _ Hk). }
  destruct op_arg as [[[|c op] arg]|]; [done| |done].
  destruct (Template.getattr_operator (String c op)) as [operator|] eqn:Hop;
    [|done].
  by rewrite (operator_frame variables (String c op) arg operator Hp Hop).
Qed.

End frame.

Lemma sub_items_ext repl1 repl2 (s : string) :
  (forall body, repl1 body = repl2 body) ->
  forall skip, sub_items repl1 s skip = sub_items repl2 s skip.
Proof.
  intros Hext. induction s as [|c s IH]; intros skip; [done|].
  cbn [sub_items]. destruct skip as [|skip]; [|apply IH].
  destruct (_template_pattern (String c s)) as [[body rest]|].
  - by rewrite Hext, IH.
  - by rewrite IH.
Qed.

(** X17. An expansion reads [values] only at names that the name pattern
    accepts: two mappings that agree on those names give the same result,
    text or error, for every template. *)
Theorem X17_only_names_are_read (template : string)
    (values1 values2 : gmap string Value) :
  (forall k, _varname_pattern k = true -> values1 !! k = values2 !! k) ->
  Template.expand template values1 = Template.expand template values2.
Proof.
  intros Hagree. unfold Template.expand, re_sub.
  rewrite (sub_items_ext _
             (fun group1 =>
                Template._handle_match group1 (percent_encode values2)));
    [done|].
  intros body. apply _handle_match_frame.
  intros k Hk. by rewrite !percent_encode_lookup, (Hagree k Hk).
Qed.

Lemma X17_only_names_are_read_witness :
  Template.expand "{-join|&|a,b=2}{c}"
    (kw [("a", Scalar "1"); ("a-b", Scalar "x")])
  = Template.expand "{-join|&|a,b=2}{c}"
      (kw [("a", Scalar "1"); ("", Sequence [])]).
Proof.
  apply (X17_only_names_are_read "{-join|&|a,b=2}{c}"
           (kw [("a", Scalar "1"); ("a-b", Scalar "x")])
           (kw [("a", Scalar "1"); ("", Sequence [])])).
  intros k Hk. unfold kw. simpl.
  destruct (decide (k = "a")) as [->|Ha]; [done|].
  assert (k <> "a-b") by (by intros ->).
  assert (k <> "") by (by intros ->).
  by rewrite !lookup_insert_ne.
Defined.

(** ** Keyword arguments *)

(** X18. In [expand_template] a keyword argument hides the entry of
    [values] of the same key, and entries whose key the name pattern
    rejects are not read: two mappings that agree on the accepted names
    that are not keywords give the same result, text or error. *)
Theorem X18_keywords_hide_values (template : string)
    (values1 values2 kwargs : gmap string Value) :
  (forall k, _varname_pattern k = true -> kwargs !! k = None ->
             values1 !! k = values2 !! k) ->
  expand_template template values1 kwargs
  = expand_template template values2 kwargs.
Proof.
  intros Hagree.
  assert (forall k, _varname_pattern k = true ->
            (kwargs ∪ values1) !! k = (kwargs ∪ values2) !! k) as Hall.
  { intros k Hk. rewrite !lookup_union.
    destruct (kwargs !! k) as [v|] eqn:Hkw; [by rewrite !union_Some_l|].
    by rewrite (Hagree k Hk Hkw). }
  unfold expand_template.
  assert ("self" ∈ dom (kwargs ∪ values1) <-> "self" ∈ dom (kwargs ∪ values2))
    as Hself by (by rewrite !elem_of_dom, (Hall "self" eq_refl)).
  destruct (decide ("self" ∈ dom (kwargs ∪ values1))) as [H1|H1];
    destruct (decide ("self" ∈ dom (kwargs ∪ values2))) as [H2|H2];
    [done|tauto|tauto|].
  unfold Template.expand, re_sub.
  rewrite (sub_items_ext _
             (fun group1 =>
                Template._handle_match group1
                  (percent_encode (kwargs ∪ values2)))); [done|].
  intros body. apply _handle_match_frame.
  intros k Hk. by rewrite !percent_encode_lookup, (Hall k Hk).
Qed.

Lemma X18_keywords_hide_values_witness :
  expand_template "{a}/{b}" (kw [("a", Scalar "1"); ("b", Scalar "x")])
    (kw [("a", Scalar "3")])
  = expand_template "{a}/{b}" (kw [("a", Scalar "2"); ("b", Scalar "x")])
      (kw [("a", Scalar "3")]).
Proof.
  apply (X18_keywords_hide_values "{a}/{b}"
           (kw [("a", Scalar "1"); ("b", Scalar "x")])
           (kw [("a", Scalar "2"); ("b", Scalar "x")])
           (kw [("a", Scalar "3")])).
  intros k _. unfold kw. simpl.
  destruct (decide (k = "a")) as [->|Ha]; [done|].
  intros _. by rewrite !(lookup_insert_ne _ "a").
Defined.

(** ** The name pattern and the percent-encoder *)

Lemma word_tail_line_feed (s : string) :
  word_tail s = true -> contains "010" s = false ->
  word_tail (s +:+ String "010" EmptyString) = true.
Proof.
  induction s as [|c s IH]; [done|]. rewrite str_app_cons. simpl.
  intros Hw [Hc Hs]%orb_false_iff.
  destruct (is_word c); [by apply IH|].
  change (ascii_of_nat 10) with "010"%char in Hw. by rewrite Hc in Hw.
Qed.

(** X19. The dollar of the name pattern also matches in front of a final
    line feed: a name followed by one line feed is accepted, and the key
    looked up in [values] is the name with the line feed. *)
Theorem X19_name_with_line_feed (name : string) (values : gmap string Value) :
  _varname_pattern name = true -> contains "010" name = false ->
  Template.expand ("{" +:+ name +:+ String "010" "}") values
  = match values !! (name +:+ String "010" EmptyString) with
    | Some (Scalar s) => Ok (quote s)
    | Some (Sequence _) => Raise TypeError
    | None => Ok EmptyString
    end.
Proof.
  intros Hname Hnl.
  set (var := name +:+ String "010" EmptyString).
  assert ("{" +:+ name +:+ String "010" "}" = "{" +:+ var +:+ "}") as ->
    by (subst var; by rewrite str_app_assoc).
  assert (forall c, is_word c = false -> Ascii.eqb c "010" = false ->
                    contains c var = false) as Hfree.
  { intros c Hw Hc. subst var. rewrite contains_app.
    rewrite (proj2 (_varname_pattern_chars name c Hname Hw Hc)).
    cbn [contains orb]. rewrite orb_false_r. by rewrite Ascii.eqb_sym. }
  assert (_varname_pattern var = true) as Hvar.
  { subst var. destruct name as [|c name]; [done|]. rewrite str_app_cons.
    simpl in *. apply andb_true_iff in Hname as [-> Ht].
    apply orb_false_iff in Hnl as [_ Hnl]. by apply word_tail_line_feed. }
  assert (parse_var var = Ok (var, None)) as Hp.
  { unfold parse_var. rewrite (Hfree "="%char) by done. simpl.
    by rewrite Hvar. }
  assert (var <> EmptyString) as Hne by (by eapply parse_var_nonempty).
  pose proof (_handle_match_one_plain var var None (percent_encode values)
                (Hfree "|"%char eq_refl eq_refl)
                (Hfree ","%char eq_refl eq_refl) Hp) as Hm.
  unfold get in Hm. rewrite percent_encode_lookup in Hm.
  pose proof (Hfree "}"%char eq_refl eq_refl) as Hb.
  destruct (values !! var) as [[s|l]|]; simpl in Hm.
  - by apply (expand_block _ _ (Some (Scalar (quote s)))).
  - by eapply expand_block_list.
  - by apply (expand_block _ _ None).
Qed.

Lemma X19_name_with_line_feed_witness :
  Template.expand ("{" +:+ "foo" +:+ String "010" "}")
    (kw [("foo", Scalar "x"); ("foo" +:+ String "010" EmptyString, Scalar "y")])
  = Ok "y".
Proof.
  exact (X19_name_with_line_feed "foo"
           (kw [("foo", Scalar "x");
                ("foo" +:+ String "010" EmptyString, Scalar "y")])
           eq_refl eq_refl).
Defined.

Lemma ord_inj (c1 c2 : ascii) : ord c1 = ord c2 -> c1 = c2.
Proof.
  unfold ord. intros H%N2Z.inj.
  by rewrite <- (ascii_N_embedding c1), <- (ascii_N_embedding c2), H.
Qed.

Lemma hex2_safe (c : ascii) :
  exists hi lo,
    hex2 true c = String hi (String lo EmptyString)
    /\ quote_safe hi = true /\ quote_safe lo = true.
Proof. destruct c as [[] [] [] [] [] [] [] []]; by eexists _, _. Qed.

Lemma quote_inj (s1 s2 : string) : quote s1 = quote s2 -> s1 = s2.
Proof.
  unfold quote. revert s2.
  induction s1 as [|c1 s1 IH]; intros [|c2 s2]; simpl; rewrite ?quoter_safe.
  - done.
  - by destruct (quote_safe c2).
  - by destruct (quote_safe c1).
  - destruct (hex2_safe c1) as (h1 & l1 & Hx1 & _ & _).
    destruct (hex2_safe c2) as (h2 & l2 & Hx2 & _ & _).
    destruct (quote_safe c1) eqn:H1, (quote_safe c2) eqn:H2;
      rewrite ?Hx1, ?Hx2, !str_app_cons, ?str_app_nil_l.
    + intros [= -> Hq]. by rewrite (IH _ Hq).
    + intros [= -> _]. done.
    + intros [= <- _]. done.
    + intros [= -> -> Hq]. rewrite (IH _ Hq). f_equal.
      apply ord_inj. rewrite <- Hx2 in Hx1.
      pose proof (hex2_decode c1) as Hd1. rewrite Hx1, hex2_decode in Hd1.
      by injection Hd1.
Qed.

Lemma percent_encode_value_inj (v1 v2 : Value) :
  percent_encode_value v1 = percent_encode_value v2 -> v1 = v2.
Proof.
  destruct v1 as [s1|l1], v2 as [s2|l2]; simpl; try done.
  - by intros [= ->%quote_inj].
  - intros [= Hl]. f_equal. revert l2 Hl.
    induction l1 as [|s1 l1 IH]; intros [|s2 l2]; simpl; try done.
    intros [= ->%quote_inj ->%IH]. done.
Qed.

(** X20. [percent_encode] loses nothing: it keeps the keys, and two
    mappings with the same encoding are the same mapping. *)
Theorem X20_percent_encode_injective (values1 values2 : gmap string Value) :
  dom (percent_encode values1) = dom values1
  /\ (percent_encode values1 = percent_encode values2 <-> values1 = values2).
Proof.
  split.
  - apply set_eq. intros k.
    rewrite !elem_of_dom, percent_encode_lookup. by rewrite fmap_is_Some.
  - split; [|by intros ->]. intros Heq. apply map_eq. intros k.
    assert (percent_encode values1 !! k = percent_encode values2 !! k) as Hk
      by by rewrite Heq.
    rewrite !percent_encode_lookup in Hk.
    destruct (values1 !! k) as [v1|], (values2 !! k) as [v2|];
      simpl in Hk; try done.
    injection Hk as Hk. by rewrite (percent_encode_value_inj _ _ Hk).
Qed.

Lemma contains_quote (c : ascii) (s : string) :
  quote_safe c = false -> c <> "%"%char -> contains c (quote s) = false.
Proof.
  intros Hc Hpc. unfold quote.
  induction s as [|c' s IH]; [done|]. simpl. rewrite quoter_safe.
  destruct (hex2_safe c') as (hi & lo & -> & Hhi & Hlo).
  destruct (quote_safe c') eqn:Hc'; rewrite !str_app_cons, str_app_nil_l;
    cbn [contains]; rewrite IH, orb_false_r.
  - apply Ascii.eqb_neq. intros ->. congruence.
  - repeat (apply orb_false_iff; split); apply Ascii.eqb_neq.
    + by intros <-.
    + intros ->. congruence.
    + intros ->. congruence.
Qed.

(** X21. An encoded value is made of the characters the encoder lets
    pass (letters, digits and [_.-/]) and of the percent sign: no other
    character occurs in an entry of the result of [percent_encode]. *)
Theorem X21_encoded_characters (values : gmap string Value) (k : string)
    (c : ascii) :
  quote_safe c = false -> c <> "%"%char ->
  match percent_encode values !! k with
  | Some (Scalar s) => contains c s = false
  | Some (Sequence l) => Forall (fun s => contains c s = false) l
  | None => True
  end.
Proof.
  intros Hc Hpc. rewrite percent_encode_lookup.
  destruct (values !! k) as [[s|l]|]; simpl; [|
    |done].
  - by apply contains_quote.
  - apply Forall_fmap, Forall_forall. intros s _. by apply contains_quote.
Qed.

Lemma X21_encoded_characters_witness :
  Forall (fun s => contains "&" s = false) ["Yahoo%21"; "AT%26T"].
Proof.
  exact (X21_encoded_characters
           (kw [("companies", Sequence ["Yahoo!"; "AT&T"])]) "companies" "&"
           eq_refl ltac:(discriminate)).
Defined.
